(** * The audio mixer (mixer/src/main.cpp): ring buffers, admission, mix cycle

    A shallow embedding of the mixer's two activities, [addAgent] (one
    inbound frame) and the body of the [sendBuffer] loop (one mix cycle and
    its scheduling step), with the properties of the design document stated
    over them; then the receive loop of [main] and the heartbeat thread
    [reportAliveToDS], and further properties of the code.

    Conventions.
    - [int16_t] samples, [long] accumulator cells, cursors and clock fields
      are [Z].  The master accumulator sums at most [MAX_SOURCE_BUFFERS]
      16-bit samples per cell, far inside the range of [long], so its
      additions are plain integer additions; the narrowing store into an
      [int16_t] output cell is written out ([to_int16]).
    - A cursor ([endOfLastWrite], [nextOutput]) is the offset, in samples,
      of the pointer from [buffer]; [None] is the NULL pointer.
    - The global arrays [agents] and [sourceBuffers] are lists of the
      declared length; indexing past the end is undefined in the source and
      is [None] here.
    - [double] values (clock differences, time to sleep) are exact
      rationals; rounding is not modelled.
    - [gettimeofday] results are inputs of the functions that read the
      clock. *)

From Stdlib Require Import ZArith QArith Qround Lia.
From stdpp Require Import base tactics option list strings.

Local Open Scope Z_scope.

(** ** Constants (main.cpp, lines 18-41) *)

Definition MAX_AGENTS : nat := 1000.
Definition LOGOFF_CHECK_INTERVAL : Z := 1000.

Definition BUFFER_LENGTH_BYTES : Z := 1024.
(** [BUFFER_LENGTH_BYTES / sizeof(int16_t)] *)
Definition BUFFER_LENGTH_SAMPLES : Z := BUFFER_LENGTH_BYTES / 2.
Definition SAMPLE_RATE : Q := 22050 # 1.
(** [(BUFFER_LENGTH_SAMPLES / SAMPLE_RATE) * 1000000] *)
Definition BUFFER_SEND_INTERVAL_USECS : Q :=
  ((inject_Z BUFFER_LENGTH_SAMPLES / SAMPLE_RATE) * (1000000 # 1))%Q.

Definition JITTER_BUFFER_MSECS : Z := 20.
(** [JITTER_BUFFER_MSECS * (SAMPLE_RATE / 1000.0)], stored in a [short]:
    20 * 22.05 = 441. *)
Definition JITTER_BUFFER_SAMPLES : Z :=
  Qfloor (inject_Z JITTER_BUFFER_MSECS * (SAMPLE_RATE / (1000 # 1)))%Q.

Definition RING_BUFFER_FRAMES : Z := 10.
Definition RING_BUFFER_SAMPLES : Z := RING_BUFFER_FRAMES * BUFFER_LENGTH_SAMPLES.

(** [std::numeric_limits<int16_t>::max()] and [min()] *)
Definition MAX_SAMPLE_VALUE : Z := 32767.
Definition MIN_SAMPLE_VALUE : Z := -32768.

Definition MAX_SOURCE_BUFFERS : nat := 20.

(** One frame, as a list length. *)
Definition FRAME : nat := Z.to_nat BUFFER_LENGTH_SAMPLES.

Arguments BUFFER_LENGTH_SAMPLES : simpl never.
Arguments JITTER_BUFFER_SAMPLES : simpl never.
Arguments RING_BUFFER_SAMPLES : simpl never.
Arguments FRAME : simpl never.
Arguments MAX_AGENTS : simpl never.
Arguments MAX_SOURCE_BUFFERS : simpl never.

(** ** The ring buffer *)

(** The fields main.cpp uses of [AudioRingBuffer]. *)
Record AudioRingBuffer := mkRing {
  buffer : list Z;
  endOfLastWrite : option Z;
  nextOutput : Z;
  started : bool
}.

Definition set_started (v : bool) (rb : AudioRingBuffer) : AudioRingBuffer :=
  mkRing (buffer rb) (endOfLastWrite rb) (nextOutput rb) v.

Definition set_nextOutput (r : Z) (rb : AudioRingBuffer) : AudioRingBuffer :=
  mkRing (buffer rb) (endOfLastWrite rb) r (started rb).

Definition set_endOfLastWrite (w : option Z) (rb : AudioRingBuffer) : AudioRingBuffer :=
  mkRing (buffer rb) w (nextOutput rb) (started rb).

Definition set_buffer (b : list Z) (rb : AudioRingBuffer) : AudioRingBuffer :=
  mkRing b (endOfLastWrite rb) (nextOutput rb) (started rb).

(** Modelled from the spec: AudioRingBuffer.h (the class, its constructor and
    [diffLastWriteNextOutput]) is not among the sources.  The design
    document gives the unread backlog as [(w - r + C) mod C] for write
    cursor [w], read cursor [r] and capacity [C]; main.cpp only calls it
    once something has been written (lines 91 and 200), and nothing is
    unread before that. *)
Definition diffLastWriteNextOutput (rb : AudioRingBuffer) : Z :=
  match endOfLastWrite rb with
  | Some w => (w - nextOutput rb + RING_BUFFER_SAMPLES) mod RING_BUFFER_SAMPLES
  | None => 0
  end.

(** Modelled from the spec: the constructor of AudioRingBuffer.h is not among
    the sources.  A fresh buffer is in the initial state Buffering, has
    nothing written (main.cpp tests [endOfLastWrite] against NULL) and reads
    from the start of its storage. *)
Definition newAudioRingBuffer (ringBufferSamples : Z) : AudioRingBuffer :=
  mkRing (replicate (Z.to_nat ringBufferSamples) 0) None 0 false.

(** [memcpy(buffer + dst, audioData, BUFFER_LENGTH_BYTES)]: one frame of
    samples replaces the cells from [dst] on.  The storage keeps its size: a
    copy running past its end is undefined in the source, and the cells
    beyond the end are not modelled. *)
Definition memcpyFrame (buf : list Z) (dst : Z) (audioData : list Z) : list Z :=
  take (length buf)
       (take (Z.to_nat dst) buf ++ take FRAME audioData ++ drop (Z.to_nat dst + FRAME) buf).

(** The cells [p[0] .. p[BUFFER_LENGTH_SAMPLES - 1]] for [p = buffer + off]. *)
Definition frameAt (buf : list Z) (off : Z) : list Z :=
  take FRAME (drop (Z.to_nat off) buf).

(** A cursor advanced by one frame (lines 106-110 and 211-215): back to the
    start of the storage once it reaches the end. *)
Definition advance (p : Z) : Z :=
  if RING_BUFFER_SAMPLES <=? p + BUFFER_LENGTH_SAMPLES then 0
  else p + BUFFER_LENGTH_SAMPLES.

(** addAgent, lines 209-215: copy the frame at the write cursor and advance
    it.  The cursor is not NULL here (lines 200-201). *)
Definition writeFrame (audioData : list Z) (rb : AudioRingBuffer) : AudioRingBuffer :=
  match endOfLastWrite rb with
  | Some w =>
      set_endOfLastWrite (Some (advance w)) (set_buffer (memcpyFrame (buffer rb) w audioData) rb)
  | None => rb
  end.

(** addAgent, lines 200-207: the cursors are made ready for the copy. *)
Definition prepareWrite (rb : AudioRingBuffer) : AudioRingBuffer :=
  match endOfLastWrite rb with
  | None => set_endOfLastWrite (Some 0) rb
  | Some _ =>
      if RING_BUFFER_SAMPLES - BUFFER_LENGTH_SAMPLES <? diffLastWriteNextOutput rb
      then set_started false (set_nextOutput 0 (set_endOfLastWrite (Some 0) rb))
      else rb
  end.

(** addAgent, lines 200-215: the buffer part of an admission. *)
Definition admitFrame (audioData : list Z) (rb : AudioRingBuffer) : AudioRingBuffer :=
  writeFrame audioData (prepareWrite rb).

(** sendBuffer, lines 102-110: the frame at the read cursor, and the cursor
    advanced. *)
Definition readFrame (rb : AudioRingBuffer) : AudioRingBuffer * list Z :=
  (set_nextOutput (advance (nextOutput rb)) rb, frameAt (buffer rb) (nextOutput rb)).

(** sendBuffer, lines 91-112, for one source buffer: the buffer afterwards
    and the frame folded into the master mix, if any. *)
Definition mixSource (rb : AudioRingBuffer) : AudioRingBuffer * option (list Z) :=
  match endOfLastWrite rb with
  | None => (rb, None)
  | Some _ =>
      if negb (started rb)
         && (diffLastWriteNextOutput rb <=? BUFFER_LENGTH_SAMPLES + JITTER_BUFFER_SAMPLES)
      then (rb, None)
      else if diffLastWriteNextOutput rb <? BUFFER_LENGTH_SAMPLES
      then (set_started false rb, None)
      else
        let '(rb', frame) := readFrame (set_started true rb) in
        (rb', Some frame)
  end.

(** ** Clipping (sendBuffer, lines 131-139) *)

(** The store of a [long] into an [int16_t]. *)
Definition to_int16 (x : Z) : Z := (x + 32768) mod 65536 - 32768.

Definition clip (longSample : Z) : Z :=
  to_int16 (if longSample <? 0
            then Z.max longSample MIN_SAMPLE_VALUE
            else Z.min longSample MAX_SAMPLE_VALUE).

(** sendBuffer, lines 126-139: the frame composed for one agent. *)
Definition clientMix (masterMix : list Z) (previousOutput : option (list Z)) : list Z :=
  match previousOutput with
  | Some prev => zip_with (λ m p, clip (m - p)) masterMix prev
  | None => clip <$> masterMix
  end.

(** ** Clock values *)

Record timeval := mkTimeval { tv_sec : Z; tv_usec : Z }.

(** Milliseconds from [clock1] to [clock2] (lines 59-64). *)
Definition diffclock (clock1 clock2 : timeval) : Q :=
  (inject_Z (tv_sec clock2 - tv_sec clock1) * (1000 # 1)
   + inject_Z (tv_usec clock2 - tv_usec clock1) / (1000 # 1))%Q.

(** Lines 66-68. *)
Definition usecTimestamp (t : timeval) (addedUsecs : Q) : Q :=
  (inject_Z (tv_sec t) * (1000000 # 1) + inject_Z (tv_usec t) + addedUsecs)%Q.

(** ** The agent table and the mixer's global state (lines 47-57) *)

Record AgentList := mkAgent {
  address : option string;
  port : Z;
  active : bool;
  time : timeval;
  bufferTransmitted : bool
}.

Definition set_bufferTransmitted (v : bool) (ag : AgentList) : AgentList :=
  mkAgent (address ag) (port ag) (active ag) (time ag) v.

Record Mixer := mkMixer {
  agents : list AgentList;
  numAgents : nat;
  sourceBuffers : list AudioRingBuffer
}.

(** Zero-initialised global storage, and the buffers [main] allocates
    (lines 275-277). *)
Definition blankAgent : AgentList := mkAgent None 0 false (mkTimeval 0 0) false.

Definition initialMixer : Mixer :=
  mkMixer (replicate MAX_AGENTS blankAgent) 0
          (replicate MAX_SOURCE_BUFFERS (newAudioRingBuffer (10 * BUFFER_LENGTH_SAMPLES))).

(** A loop [for (i = ...; ...; i++) body] over the indices [idx], threading
    the state; [None] as soon as an iteration indexes out of range. *)
Fixpoint forEach {S : Type} (body : nat → S → option S) (idx : list nat) (st : S) : option S :=
  match idx with
  | [] => Some st
  | i :: idx' => st' ← body i st; forEach body idx' st'
  end.

(** ** Admission: addAgent (lines 174-222) *)

(** The test of lines 180-181 on one table entry; [strcmp] needs an address
    in the slot. *)
Definition sameAgent (addr : string) (prt : Z) (ag : AgentList) : option bool :=
  known ← address ag;
  Some (bool_decide (addr = known) && (prt =? port ag)).

(** The search loop of lines 179-184, from index [i] with [remaining]
    entries to go: the index at which the loop stops. *)
Fixpoint searchAgents (addr : string) (prt : Z) (ags : list AgentList)
    (i remaining : nat) : option nat :=
  match remaining with
  | O => Some i
  | S k =>
      ag ← ags !! i;
      same ← sameAgent addr prt ag;
      if (same : bool) then Some i else searchAgents addr prt ags (S i) k
  end.

(** [addr] and [prt] are [inet_ntoa(newAddress->sin_addr)] and
    [ntohs(newAddress->sin_port)]; [now] is the clock read at line 198.  The
    result is the state afterwards and the returned [is_new].  Lines 189-190
    leave the text of the address in the entry; the size of the allocation
    they make for it is not modelled. *)
Definition addAgent (now : timeval) (addr : string) (prt : Z) (audioData : list Z)
    (s : Mixer) : option (Mixer * Z) :=
  i ← searchAgents addr prt (agents s) 0 (numAgents s);
  ag ← agents s !! i;
  let is_new := bool_decide (i = numAgents s) || negb (active ag) in
  let ag1 := if is_new then mkAgent (Some addr) (port ag) (active ag) (time ag) false else ag in
  let ag2 := mkAgent (address ag1) prt true now (bufferTransmitted ag1) in
  rb ← sourceBuffers s !! i;
  Some (mkMixer (<[i := ag2]> (agents s))
                (if bool_decide (i = numAgents s) then S (numAgents s) else numAgents s)
                (<[i := admitFrame audioData rb]> (sourceBuffers s)),
        if is_new then 1 else 0).

(** ** One mix cycle: the body of the sendBuffer loop (lines 82-156) *)

(** [masterMix[s] += nextOutput[s]] for every sample of the frame. *)
Definition addFrame (masterMix frame : list Z) : list Z := zip_with Z.add masterMix frame.

(** Lines 90-113, iteration [b]. *)
Definition mixSourceAt (b : nat) (st : list AudioRingBuffer * list AgentList * list Z)
    : option (list AudioRingBuffer * list AgentList * list Z) :=
  let '(sbs, ags, masterMix) := st in
  rb ← sbs !! b;
  match mixSource rb with
  | (rb', Some frame) =>
      Some (<[b := rb']> sbs, alter (set_bufferTransmitted true) b ags, addFrame masterMix frame)
  | (rb', None) => Some (<[b := rb']> sbs, ags, masterMix)
  end.

(** What [audioSocket.send] is handed; [slot] records the table index. *)
Record Packet := mkPacket {
  slot : nat;
  toAddress : option string;
  toPort : Z;
  payload : list Z
}.

(** Lines 120-122: where the frame read last starts. *)
Definition previousOffset (rb : AudioRingBuffer) : Z :=
  if nextOutput rb =? 0 then RING_BUFFER_SAMPLES - BUFFER_LENGTH_SAMPLES
  else nextOutput rb - BUFFER_LENGTH_SAMPLES.

(** The liveness test of line 116. *)
Definition live (sendTime : timeval) (ag : AgentList) : bool :=
  Qle_bool (diffclock (time ag) sendTime) (inject_Z LOGOFF_CHECK_INTERVAL).

(** Lines 115-156, iteration [a]. *)
Definition sendTo (sendTime : timeval) (masterMix : list Z) (sbs : list AudioRingBuffer)
    (a : nat) (st : list AgentList * list Packet) : option (list AgentList * list Packet) :=
  let '(ags, sent) := st in
  ag ← ags !! a;
  if live sendTime ag then
    previousOutput ←
      (if bufferTransmitted ag
       then rb ← sbs !! a; Some (Some (frameAt (buffer rb) (previousOffset rb)))
       else Some None);
    let ags' := if bufferTransmitted ag
                then <[a := set_bufferTransmitted false ag]> ags else ags in
    Some (ags', sent ++ [mkPacket a (address ag) (port ag) (clientMix masterMix previousOutput)])
  else Some (ags, sent).

(** One iteration of the [while] loop up to the sends: the state afterwards,
    the master mix of the cycle and the packets sent, in order. *)
Definition mixCycle (sendTime : timeval) (s : Mixer) : option (Mixer * list Z * list Packet) :=
  '(sbs, ags, masterMix) ←
    forEach mixSourceAt (seq 0 MAX_SOURCE_BUFFERS)
            (sourceBuffers s, agents s, replicate FRAME 0);
  '(ags', sent) ← forEach (sendTo sendTime masterMix sbs) (seq 0 (numAgents s)) (ags, []);
  Some (mkMixer ags' (numAgents s) sbs, masterMix, sent).

(** ** Pacing (lines 158-168) *)

Inductive Pause :=
  | Usleep (usecs : Z)
  | NotSleeping.

(** The deadline of the cycle numbered [currentFrame], in microseconds. *)
Definition deadline (startTime : timeval) (currentFrame : Z) : Q :=
  usecTimestamp startTime (inject_Z currentFrame * BUFFER_SEND_INTERVAL_USECS)%Q.

(** Lines 160-166; [usleep] takes whole microseconds. *)
Definition pace (startTime : timeval) (currentFrame : Z) (now : timeval) : Pause :=
  let usecToSleep := (deadline startTime currentFrame - usecTimestamp now 0)%Q in
  if Qle_bool usecToSleep 0 then NotSleeping else Usleep (Qfloor usecToSleep).

(** The [while (true)] loop of sendBuffer run for as many cycles as there
    are clock readings, each a pair of the [sendTime] and the [now] of that
    cycle: the state and frame counter afterwards, and per cycle the packets
    sent and the pause taken. *)
Fixpoint sendBufferLoop (startTime : timeval) (clock : list (timeval * timeval))
    (currentFrame : Z) (s : Mixer) : option (Mixer * Z * list (list Packet * Pause)) :=
  match clock with
  | [] => Some (s, currentFrame, [])
  | (sendTime, now) :: clock' =>
      '(s', _, sent) ← mixCycle sendTime s;
      '(s'', frame', trace) ← sendBufferLoop startTime clock' (currentFrame + 1) s';
      Some (s'', frame', (sent, pace startTime currentFrame now) :: trace)
  end.

(** Line 73 and line 79: the thread starts at frame 1. *)
Definition sendBuffer (startTime : timeval) (clock : list (timeval * timeval)) (s : Mixer) :=
  sendBufferLoop startTime clock 1 s.

(** ** The receive loop of main (lines 282-291) and the threads together *)

(** What [audioSocket.receive] hands back when it succeeds: the sender and
    the contents of [packetData], with the clock addAgent reads while it
    handles the packet. *)
Record Datagram := mkDatagram {
  arrival : timeval;
  senderAddress : string;
  senderPort : Z;
  packetData : list Z
}.

(** One step of the program: the body of main's loop with a packet
    received or with none, or one cycle of the sendBuffer thread. *)
Inductive Event :=
  | Received (d : Datagram)
  | NothingReceived
  | Cycle (sendTime : timeval).

(** The steps taken one after the other: the state afterwards and the
    agents main reports as added (line 286), in order.  The source runs the
    receive loop and sendBuffer in two threads and takes no lock; here each
    addAgent call and each mix cycle is one step, and interleavings inside a
    call are not modelled. *)
Fixpoint run (events : list Event) (s : Mixer) : option (Mixer * list (string * Z)) :=
  match events with
  | [] => Some (s, [])
  | Received d :: rest =>
      '(s', is_new) ← addAgent (arrival d) (senderAddress d) (senderPort d) (packetData d) s;
      '(s'', added) ← run rest s';
      Some (s'', if bool_decide (is_new ≠ 0)
                 then (senderAddress d, senderPort d) :: added else added)
  | NothingReceived :: rest => run rest s
  | Cycle sendTime :: rest => '(s', _, _) ← mixCycle sendTime s; run rest s'
  end.

(** ** The heartbeat to the domain server (reportAliveToDS, lines 224-246) *)

Definition DOMAINSERVER_PORT : Z := 40102.

(** What [sprintf(output, "%c %f,%f,%f", 'M', 0.f, 0.f, 0.f)] leaves in
    [output]: [%f] prints six decimals. *)
Definition heartbeatOutput : string := "M 0.000000,0.000000,0.000000".

(** What [audioSocket.send] is handed at line 235. *)
Record Heartbeat := mkHeartbeat {
  hbAddress : string;
  hbPort : Z;
  hbOutput : string;
  hbPacketSize : nat
}.

Inductive HeartbeatPause :=
  | HeartbeatUsleep (usecs : Z)
  | NoSleepRequired.

(** Lines 239-245; [usleep] takes whole microseconds. *)
Definition heartbeatPause (lastSend now : timeval) : HeartbeatPause :=
  let usecToSleep :=
    ((1000000 # 1) - (usecTimestamp now 0 - usecTimestamp lastSend 0))%Q in
  if Qle_bool usecToSleep 0 then NoSleepRequired else HeartbeatUsleep (Qfloor usecToSleep).

(** The [while (true)] loop run for as many rounds as there are clock
    readings, each a pair of the [lastSend] and the [now] of that round;
    [domainIP] is what [main] has left in [DOMAIN_IP]. *)
Fixpoint reportAliveToDS (domainIP : string) (clock : list (timeval * timeval))
    : list (Heartbeat * HeartbeatPause) :=
  match clock with
  | [] => []
  | (lastSend, now) :: clock' =>
      let packetSize := String.length heartbeatOutput in
      (mkHeartbeat domainIP DOMAINSERVER_PORT heartbeatOutput packetSize,
       heartbeatPause lastSend now)
      :: reportAliveToDS domainIP clock'
  end.

(** * Predicates and closed forms used in the statements *)

(** A cursor inside the storage, on a frame boundary. *)
Definition onFrame (p : Z) : Prop :=
  0 ≤ p < RING_BUFFER_SAMPLES ∧ p mod BUFFER_LENGTH_SAMPLES = 0.

(** The storage has its full length and both cursors are on frame
    boundaries. *)
Definition ringOK (rb : AudioRingBuffer) : Prop :=
  Z.of_nat (length (buffer rb)) = RING_BUFFER_SAMPLES
  ∧ onFrame (nextOutput rb)
  ∧ match endOfLastWrite rb with Some w => onFrame w | None => True end.

(** Both cursors point into the storage; a buffer never written to reads
    from its start. *)
Definition cursorsInside (rb : AudioRingBuffer) : Prop :=
  Z.of_nat (length (buffer rb)) = RING_BUFFER_SAMPLES
  ∧ 0 ≤ nextOutput rb < RING_BUFFER_SAMPLES
  ∧ match endOfLastWrite rb with
    | Some w => 0 ≤ w < RING_BUFFER_SAMPLES
    | None => nextOutput rb = 0
    end.

(** The arrays have their declared lengths, every agent has a source
    buffer, and every entry in use holds an address. *)
Definition tablesOK (s : Mixer) : Prop :=
  length (agents s) = MAX_AGENTS
  ∧ length (sourceBuffers s) = MAX_SOURCE_BUFFERS
  ∧ (numAgents s ≤ MAX_SOURCE_BUFFERS)%nat
  ∧ Forall (λ ag, is_Some (address ag)) (take (numAgents s) (agents s)).

Global Instance tablesOK_dec s : Decision (tablesOK s).
Proof. unfold tablesOK. apply _. Defined.

Global Instance ringOK_dec rb : Decision (ringOK rb).
Proof. unfold ringOK, onFrame. destruct (endOfLastWrite rb); apply _. Defined.

Global Instance cursorsInside_dec rb : Decision (cursorsInside rb).
Proof. unfold cursorsInside. destruct (endOfLastWrite rb); apply _. Defined.

(** A source is folded into the master mix when it is started, or past the
    jitter threshold, and has a full frame. *)
Definition contributes (rb : AudioRingBuffer) : bool :=
  bool_decide (is_Some (mixSource rb).2).

(** What one source buffer adds to the master mix. *)
Definition foldSource (sbs : list AudioRingBuffer) (masterMix : list Z) (b : nat) : list Z :=
  match sbs !! b with
  | Some rb =>
      match (mixSource rb).2 with
      | Some frame => addFrame masterMix frame
      | None => masterMix
      end
  | None => masterMix
  end.

(** The agent entry [b] after the first loop. *)
Definition afterMix (sbs : list AudioRingBuffer) (b : nat) (ag : AgentList) : AgentList :=
  match sbs !! b with
  | Some rb => if contributes rb then set_bufferTransmitted true ag else ag
  | None => ag
  end.

(** The frame read last from a buffer (lines 120-122). *)
Definition previousFrame (rb : AudioRingBuffer) : list Z :=
  frameAt (buffer rb) (previousOffset rb).

(** The packet of the second loop for table entry [a], if one is sent. *)
Definition packetFor (sendTime : timeval) (masterMix : list Z) (sbs : list AudioRingBuffer)
    (a : nat) (ag : AgentList) : option Packet :=
  if live sendTime ag then
    Some (mkPacket a (address ag) (port ag)
            (clientMix masterMix
               (if bufferTransmitted ag then previousFrame <$> sbs !! a else None)))
  else None.

(** The agent entry after the second loop has passed it. *)
Definition afterSend (sendTime : timeval) (ag : AgentList) : AgentList :=
  if live sendTime ag && bufferTransmitted ag then set_bufferTransmitted false ag else ag.

(** Entry [ag] carries the identity [(addr, prt)]. *)
Definition hasIdentity (addr : string) (prt : Z) (ag : AgentList) : Prop :=
  address ag = Some addr ∧ port ag = prt.

(** The table holds the identity among its entries in use. *)
Definition known (s : Mixer) (addr : string) (prt : Z) : Prop :=
  ∃ i ag, (i < numAgents s)%nat ∧ agents s !! i = Some ag ∧ hasIdentity addr prt ag.

(** Entry [i] is the first one in use with the identity. *)
Definition firstWith (s : Mixer) (addr : string) (prt : Z) (i : nat) (ag : AgentList) : Prop :=
  (i < numAgents s)%nat ∧ agents s !! i = Some ag ∧ hasIdentity addr prt ag
  ∧ ∀ j ag', (j < i)%nat → agents s !! j = Some ag' → ¬ hasIdentity addr prt ag'.

(** The entry written by lines 186-198 over [ag]. *)
Definition refreshed (now : timeval) (addr : string) (prt : Z) (fresh : bool)
    (ag : AgentList) : AgentList :=
  if fresh then mkAgent (Some addr) prt true now false
  else mkAgent (address ag) prt true now (bufferTransmitted ag).

(** The range of an [int16_t] sample. *)
Definition int16 (x : Z) : Prop := MIN_SAMPLE_VALUE ≤ x ≤ MAX_SAMPLE_VALUE.

(** The frames between the read cursor and the write cursor, oldest
    first. *)
Definition pending (rb : AudioRingBuffer) : list (list Z) :=
  (λ k : nat, frameAt (buffer rb)
                ((nextOutput rb + Z.of_nat k * BUFFER_LENGTH_SAMPLES) mod RING_BUFFER_SAMPLES))
  <$> seq 0 (Z.to_nat (diffLastWriteNextOutput rb / BUFFER_LENGTH_SAMPLES)).

(** The master mix without the contribution of buffer [a]. *)
Definition mixOfOthers (sbs : list AudioRingBuffer) (a : nat) : list Z :=
  foldl (foldSource sbs) (replicate FRAME 0)
        (filter (λ j, j ≠ a) (seq 0 MAX_SOURCE_BUFFERS)).

(** Table entry [a] is in use and inside the liveness window at
    [sendTime]. *)
Definition liveAt (sendTime : timeval) (s : Mixer) (a : nat) : Prop :=
  live sendTime <$> agents s !! a = Some true.

Global Instance liveAt_dec sendTime s a : Decision (liveAt sendTime s a).
Proof. unfold liveAt. apply _. Defined.

(** Every entry in use is active. *)
Definition allActive (s : Mixer) : Prop :=
  Forall (λ ag, active ag = true) (take (numAgents s) (agents s)).

Global Instance allActive_dec s : Decision (allActive s).
Proof. unfold allActive. apply _. Defined.

(** The invariant of the program state. *)
Definition sound (s : Mixer) : Prop :=
  tablesOK s ∧ allActive s
  ∧ Forall (λ rb, ringOK rb ∧ cursorsInside rb) (sourceBuffers s).

Global Instance sound_dec s : Decision (sound s).
Proof. unfold sound. apply _. Defined.

(** The identities of the entries in use, in table order. *)
Definition identities (s : Mixer) : list (option string * Z) :=
  (λ ag, (address ag, port ag)) <$> take (numAgents s) (agents s).

(** A list of identities with one more seen: kept as it is when the
    identity is in it, and extended at the end otherwise. *)
Definition firstSeen (seen : list (option string * Z)) (id : option string * Z)
    : list (option string * Z) :=
  if decide (id ∈ seen) then seen else seen ++ [id].

(** The senders of the packets received, in order of arrival. *)
Definition senders (events : list Event) : list (option string * Z) :=
  omap (λ ev, match ev with
              | Received d => Some (Some (senderAddress d), senderPort d)
              | _ => None
              end) events.

(** [packetData] is the array of line 273, one frame long, whatever the
    number of bytes received. *)
Definition wholeFrames (events : list Event) : Prop :=
  Forall (λ ev, match ev with
                | Received d => length (packetData d) = FRAME
                | _ => True
                end) events.

Global Instance wholeFrames_dec events : Decision (wholeFrames events).
Proof.
  unfold wholeFrames. apply Forall_dec. intros [d| |t]; apply _.
Defined.

(** A reported agent as an identity of the table. *)
Definition asIdentity (x : string * Z) : option string * Z := (Some x.1, x.2).

(** The first loop of the mix cycle (lines 91-112) seen from one source
    buffer over [n] cycles in a row with no admission in between: the buffer
    afterwards and, cycle by cycle, the frame it gave to the master mix. *)
Fixpoint mixSourceTimes (n : nat) (rb : AudioRingBuffer)
    : AudioRingBuffer * list (option (list Z)) :=
  match n with
  | O => (rb, [])
  | S n' =>
      let '(rb', out) := mixSource rb in
      let '(rb'', outs) := mixSourceTimes n' rb' in
      (rb'', out :: outs)
  end.

(** Whole microseconds from one clock reading to a later one. *)
Definition usecsBetween (clock1 clock2 : timeval) : Z :=
  (tv_sec clock2 - tv_sec clock1) * 1000000 + (tv_usec clock2 - tv_usec clock1).

(** * Sample traffic *)

(** A frame of constant value. *)
Definition tone (v : Z) : list Z := replicate FRAME v.

(** [n] frames of value [v] admitted in a row from one sender. *)
Fixpoint admitFrames (n : nat) (now : timeval) (addr : string) (prt : Z) (v : Z)
    (s : Mixer) : option Mixer :=
  match n with
  | O => Some s
  | S k => '(s', _) ← addAgent now addr prt (tone v) s; admitFrames k now addr prt v s'
  end.

(** One peer that has sent three frames at second 100. *)
Definition onePeer : Mixer :=
  default initialMixer (admitFrames 3 (mkTimeval 100 0) "10.0.0.1" 5000 100 initialMixer).

Definition onePeerBuffer : AudioRingBuffer :=
  default (newAudioRingBuffer 0) (sourceBuffers onePeer !! 0%nat).

Definition onePeerAgent : AgentList := default blankAgent (agents onePeer !! 0%nat).

(** Buffer [b] of [s] with its cursors and flag set by hand. *)
Definition withCursors (b : nat) (w r : Z) (st : bool) (s : Mixer) : Mixer :=
  mkMixer (agents s) (numAgents s)
          (alter (λ rb, mkRing (buffer rb) (Some w) r st) b (sourceBuffers s)).

(** The [started] flag of buffer [b] after a mix cycle. *)
Definition startedAfter (sendTime : timeval) (s : Mixer) (b : nat) : option bool :=
  '(s', _, _) ← mixCycle sendTime s; rb ← sourceBuffers s' !! b; Some (started rb).

(** A peer in the Buffering state whose backlog is exactly one frame plus
    the jitter threshold (953 samples). *)
Definition thresholdPeer : Mixer :=
  withCursors 0 (BUFFER_LENGTH_SAMPLES + JITTER_BUFFER_SAMPLES) 0 false onePeer.

(** The cursors and the [started] flag of buffer [b] after a mix cycle. *)
Definition cursorsAfter (sendTime : timeval) (s : Mixer) (b : nat)
    : option (option Z * Z * bool) :=
  '(s', _, _) ← mixCycle sendTime s; rb ← sourceBuffers s' !! b;
  Some (endOfLastWrite rb, nextOutput rb, started rb).

(** A peer that is playing with 100 samples, less than a frame, between its
    read cursor and its write cursor. *)
Definition starvedOffFrame : Mixer := withCursors 0 1636 1536 true onePeer.

(** [n] mix cycles in a row. *)
Fixpoint runCycles (n : nat) (sendTime : timeval) (s : Mixer) : option Mixer :=
  match n with
  | O => Some s
  | S k => '(s', _, _) ← mixCycle sendTime s; runCycles k sendTime s'
  end.

(** A peer that is playing and has used up its backlog: three frames
    written, three mix cycles run. *)
Definition drainedPeer : Mixer :=
  default initialMixer (runCycles 3 (mkTimeval 100 500) onePeer).

Definition drainedBuffer : AudioRingBuffer :=
  default (newAudioRingBuffer 0) (sourceBuffers drainedPeer !! 0%nat).

(** [n] senders on consecutive ports, one frame each. *)
Fixpoint admitPeers (n : nat) (now : timeval) (addr : string) (prt : Z) (s : Mixer)
    : option Mixer :=
  match n with
  | O => Some s
  | S k => '(s', _) ← addAgent now addr prt (tone 1) s; admitPeers k now addr (prt + 1) s'
  end.

(** A table with [MAX_SOURCE_BUFFERS] peers. *)
Definition fullTable : Mixer :=
  default initialMixer
          (admitPeers MAX_SOURCE_BUFFERS (mkTimeval 100 0) "10.0.0.1" 5000 initialMixer).

(** The time of a mix cycle at second 200, when [onePeer], last heard of
    at second 100 with three frames buffered, is far outside the liveness
    window of one second. *)
Definition stalePeerTime : timeval := mkTimeval 200 0.

(** The master mix of a cycle and the table entries packets were sent to. *)
Definition mixedAndSent (sendTime : timeval) (s : Mixer) : option (list Z * list nat) :=
  '(s', masterMix, sent) ← mixCycle sendTime s; Some (masterMix, slot <$> (sent : list Packet)).

(** Two cycles from second 100: the first ends 30 ms after the start, past
    its deadline at about 23.2 ms; the second ends 40 ms after the start,
    before its deadline at about 46.4 ms. *)
Definition lateThenEarly : list (timeval * timeval) :=
  [(mkTimeval 100 10, mkTimeval 100 30000); (mkTimeval 100 30010, mkTimeval 100 40000)].

(** A buffer whose write cursor is less than a frame behind its read
    cursor. *)
Definition crowdedBuffer : AudioRingBuffer :=
  mkRing (buffer onePeerBuffer) (Some 4700) 0 true.

(** A peer that has sent nine frames, none of them read. *)
Definition ninePeer : Mixer :=
  default initialMixer (admitFrames 9 (mkTimeval 100 0) "10.0.0.1" 5000 100 initialMixer).

Definition nineBuffer : AudioRingBuffer :=
  default (newAudioRingBuffer 0) (sourceBuffers ninePeer !! 0%nat).

(** Two peers with three frames each, of values 100 and 30000. *)
Definition twoPeers : Mixer :=
  default initialMixer (admitFrames 3 (mkTimeval 100 0) "10.0.0.2" 6000 30000 onePeer).

(** A table in use with nothing written to any buffer since the last
    read: [drainedPeer] after its starvation has been noticed. *)
Definition quietPeer : Mixer :=
  default initialMixer (runCycles 4 (mkTimeval 100 500) onePeer).

(** Packets from two senders and mix cycles in between: the first sender
    three times, then a cycle, the second sender, the first again, a failed
    receive and a cycle. *)
Definition sampleEvents : list Event :=
  [ Received (mkDatagram (mkTimeval 100 0) "10.0.0.1" 5000 (tone 100));
    Received (mkDatagram (mkTimeval 100 10) "10.0.0.1" 5000 (tone 101));
    Received (mkDatagram (mkTimeval 100 20) "10.0.0.1" 5000 (tone 102));
    Cycle (mkTimeval 100 500);
    Received (mkDatagram (mkTimeval 100 600) "10.0.0.2" 5000 (tone 7));
    Received (mkDatagram (mkTimeval 100 700) "10.0.0.1" 5000 (tone 103));
    NothingReceived;
    Cycle (mkTimeval 100 23700) ].

Definition sampleState : Mixer :=
  default initialMixer (fst <$> run sampleEvents initialMixer).

Definition sampleAdded : list (string * Z) :=
  default [] (snd <$> run sampleEvents initialMixer).

(** Three rounds of the heartbeat: a send that took 250 microseconds, one that
    took exactly a second, and one whose clock readings are a second and a
    half apart. *)
Definition heartbeatClock : list (timeval * timeval) :=
  [ (mkTimeval 100 999900, mkTimeval 101 150);
    (mkTimeval 102 0, mkTimeval 103 0);
    (mkTimeval 104 600000, mkTimeval 106 100000) ].

(** * Properties *)

(** ** Arithmetic of the constants *)

Lemma BUFFER_LENGTH_SAMPLES_val : BUFFER_LENGTH_SAMPLES = 512.
Proof. reflexivity. Qed.

Lemma JITTER_BUFFER_SAMPLES_val : JITTER_BUFFER_SAMPLES = 441.
Proof. reflexivity. Qed.

Lemma RING_BUFFER_SAMPLES_val : RING_BUFFER_SAMPLES = 5120.
Proof. reflexivity. Qed.

Lemma FRAME_val : Z.of_nat FRAME = 512.
Proof. reflexivity. Qed.

Ltac constants :=
  rewrite ?BUFFER_LENGTH_SAMPLES_val, ?JITTER_BUFFER_SAMPLES_val,
    ?RING_BUFFER_SAMPLES_val in *;
  pose proof FRAME_val.

(** ** Frame-aligned cursors: the invariant of the ring buffers *)

Lemma advance_onFrame p : onFrame p → onFrame (advance p).
Proof.
  unfold onFrame, advance. constants. intros [Hp Hm].
  destruct (Z.leb_spec 5120 (p + 512)); split; try lia.
  - reflexivity.
  - revert Hm. Z.div_mod_to_equations. lia.
Qed.

Lemma advance_mod p : onFrame p → advance p = (p + BUFFER_LENGTH_SAMPLES) mod RING_BUFFER_SAMPLES.
Proof.
  unfold onFrame, advance. constants. intros [Hp Hm].
  destruct (Z.leb_spec 5120 (p + 512)); revert Hm; Z.div_mod_to_equations; lia.
Qed.

Lemma advance_range p : 0 ≤ p → 0 ≤ advance p < RING_BUFFER_SAMPLES.
Proof.
  unfold advance. constants. intros Hp.
  destruct (Z.leb_spec 5120 (p + 512)); lia.
Qed.

Lemma diff_range rb : 0 ≤ diffLastWriteNextOutput rb < RING_BUFFER_SAMPLES.
Proof.
  unfold diffLastWriteNextOutput. destruct (endOfLastWrite rb).
  - apply Z.mod_pos_bound. reflexivity.
  - constants. lia.
Qed.

(** On frame-aligned cursors the backlog is a whole number of frames. *)
Lemma diff_onFrame rb :
  ringOK rb → diffLastWriteNextOutput rb mod BUFFER_LENGTH_SAMPLES = 0.
Proof.
  intros (_ & [Hr Hrm] & Hw). unfold diffLastWriteNextOutput.
  destruct (endOfLastWrite rb) as [w|]; [|reflexivity].
  destruct Hw as [Hw Hwm]. revert Hrm Hwm. constants.
  Z.div_mod_to_equations. lia.
Qed.

(** A backlog below one frame is an empty backlog: the cursors coincide. *)
Lemma diff_small_onFrame rb w :
  ringOK rb → endOfLastWrite rb = Some w →
  diffLastWriteNextOutput rb < BUFFER_LENGTH_SAMPLES → nextOutput rb = w.
Proof.
  intros (_ & [Hr Hrm] & Hw) E. unfold diffLastWriteNextOutput. rewrite E in *.
  destruct Hw as [Hw Hwm]. revert Hrm Hwm. constants.
  Z.div_mod_to_equations. lia.
Qed.

Lemma length_memcpyFrame buf dst audioData :
  (length (memcpyFrame buf dst audioData) ≤ length buf)%nat.
Proof. unfold memcpyFrame. rewrite length_take. lia. Qed.

Lemma length_memcpyFrame_eq buf dst audioData :
  0 ≤ dst ≤ Z.of_nat (length buf) → length audioData = FRAME →
  length (memcpyFrame buf dst audioData) = length buf.
Proof.
  unfold memcpyFrame. intros H0 Hd.
  rewrite length_take, !length_app, !length_take, length_drop, Hd. lia.
Qed.

(** The copy leaves every cell outside [dst .. dst + FRAME - 1] as it was. *)
Lemma memcpyFrame_outside buf dst audioData (j : nat) :
  0 ≤ dst ≤ Z.of_nat (length buf) → length audioData = FRAME →
  Z.of_nat j < dst ∨ dst + Z.of_nat FRAME ≤ Z.of_nat j →
  memcpyFrame buf dst audioData !! j = buf !! j.
Proof.
  intros H0 Hd Hj. unfold memcpyFrame.
  destruct (decide (j < length buf)%nat) as [Hlt|Hge].
  2: { rewrite lookup_take_ge by lia. symmetry. apply lookup_ge_None. lia. }
  rewrite lookup_take_lt by lia.
  destruct Hj as [Hj|Hj].
  - rewrite lookup_app_l by (rewrite length_take; lia).
    apply lookup_take_lt. lia.
  - rewrite lookup_app_r by (rewrite length_take; lia).
    rewrite lookup_app_r by (rewrite !length_take; lia).
    rewrite lookup_drop, !length_take, Hd. f_equal. lia.
Qed.

Lemma ringOK_new : ringOK (newAudioRingBuffer (10 * BUFFER_LENGTH_SAMPLES)).
Proof.
  unfold ringOK, newAudioRingBuffer, onFrame. cbn [buffer nextOutput endOfLastWrite].
  rewrite length_replicate. constants. split_and!; try done; lia.
Qed.

Lemma onFrame_0 : onFrame 0.
Proof. unfold onFrame. constants. split; [lia | reflexivity]. Qed.

Lemma onFrame_fits p : onFrame p → 0 ≤ p ∧ p + BUFFER_LENGTH_SAMPLES ≤ RING_BUFFER_SAMPLES.
Proof.
  unfold onFrame. constants. intros [Hp Hm]. revert Hm. Z.div_mod_to_equations. lia.
Qed.

Lemma ringOK_writeFrame audioData rb :
  length audioData = FRAME → ringOK rb → ringOK (writeFrame audioData rb).
Proof.
  intros Hd (Hl & Hr & Hw). unfold writeFrame.
  destruct (endOfLastWrite rb) as [w|] eqn:E; [|by unfold ringOK; rewrite E].
  unfold ringOK. cbn [buffer nextOutput endOfLastWrite set_endOfLastWrite set_buffer].
  split_and!; [|done|by apply advance_onFrame].
  apply onFrame_fits in Hw. rewrite length_memcpyFrame_eq; [done| |done].
  constants. lia.
Qed.

(** Admission keeps the invariant. *)
Lemma ringOK_admitFrame audioData rb :
  length audioData = FRAME → ringOK rb → ringOK (admitFrame audioData rb).
Proof.
  intros Hd H. unfold admitFrame, prepareWrite. apply ringOK_writeFrame; [done|].
  destruct H as (Hl & Hr & Hw).
  destruct (endOfLastWrite rb) as [w|] eqn:E.
  - case_match; [|by unfold ringOK; rewrite E].
    unfold ringOK; cbn. auto using onFrame_0.
  - unfold ringOK; cbn. auto using onFrame_0.
Qed.

(** The mix loop keeps the invariant. *)
Lemma ringOK_mixSource rb : ringOK rb → ringOK (mixSource rb).1.
Proof.
  intros (Hl & Hr & Hw). unfold mixSource.
  destruct (endOfLastWrite rb) as [w|] eqn:E; cbn; [|by unfold ringOK; rewrite E].
  repeat case_match; cbn; unfold ringOK; cbn; rewrite ?E; auto using advance_onFrame.
Qed.

(** ** Clipping *)

Lemma clip_cases x :
  MIN_SAMPLE_VALUE ≤ clip x ≤ MAX_SAMPLE_VALUE
  ∧ (MAX_SAMPLE_VALUE < x → clip x = MAX_SAMPLE_VALUE)
  ∧ (x < MIN_SAMPLE_VALUE → clip x = MIN_SAMPLE_VALUE)
  ∧ (MIN_SAMPLE_VALUE ≤ x ≤ MAX_SAMPLE_VALUE → clip x = x).
Proof.
  unfold clip, to_int16, MIN_SAMPLE_VALUE, MAX_SAMPLE_VALUE.
  destruct (Z.ltb_spec x 0); Z.div_mod_to_equations; lia.
Qed.

(** Each sample of a composed frame is the clipped wide sample of lines
    127-129. *)
Lemma clientMix_lookup masterMix previousOutput (i : nat) y :
  clientMix masterMix previousOutput !! i = Some y →
  ∃ m, masterMix !! i = Some m
       ∧ y = clip (match previousOutput with
                   | Some prev => m - default 0 (prev !! i)
                   | None => m
                   end).
Proof.
  unfold clientMix. destruct previousOutput as [prev|].
  - intros (m & p & -> & Hm & Hp)%lookup_zip_with_Some.
    exists m. by rewrite Hp.
  - rewrite list_lookup_fmap. destruct (masterMix !! i) as [m|]; [|done].
    intros [= <-]. by exists m.
Qed.

(** ** Round trip of the backlog *)

Lemma diff_roundtrip rb audioData :
  ringOK rb → is_Some (endOfLastWrite rb) →
  diffLastWriteNextOutput (readFrame (writeFrame audioData rb)).1
  = diffLastWriteNextOutput rb.
Proof.
  intros (_ & Hr & Hw) [w E]. rewrite E in Hw.
  unfold writeFrame, readFrame, diffLastWriteNextOutput. rewrite E. cbn.
  rewrite !advance_mod by done.
  destruct Hr as [Hr _], Hw as [Hw _]. constants.
  Z.div_mod_to_equations. lia.
Qed.

(** ** The guard of the admission *)

Lemma ringOK_cursorsInside rb :
  ringOK rb → (endOfLastWrite rb = None → nextOutput rb = 0) → cursorsInside rb.
Proof.
  intros (Hl & [Hr _] & Hw) Hn. unfold cursorsInside.
  destruct (endOfLastWrite rb); [destruct Hw|]; auto.
Qed.

Lemma prepareWrite_reset rb :
  is_Some (endOfLastWrite rb) →
  RING_BUFFER_SAMPLES - BUFFER_LENGTH_SAMPLES < diffLastWriteNextOutput rb →
  prepareWrite rb = mkRing (buffer rb) (Some 0) 0 false.
Proof.
  intros [w E] Hd. unfold prepareWrite. rewrite E.
  destruct (Z.ltb_spec (RING_BUFFER_SAMPLES - BUFFER_LENGTH_SAMPLES)
              (diffLastWriteNextOutput rb)); [done|lia].
Qed.

Lemma prepareWrite_fits rb :
  cursorsInside rb →
  diffLastWriteNextOutput (prepareWrite rb) + BUFFER_LENGTH_SAMPLES ≤ RING_BUFFER_SAMPLES.
Proof.
  intros (_ & Hr & Hw). unfold prepareWrite.
  destruct (endOfLastWrite rb) as [w|] eqn:E.
  - destruct (Z.ltb_spec (RING_BUFFER_SAMPLES - BUFFER_LENGTH_SAMPLES)
                (diffLastWriteNextOutput rb)); [|lia].
    unfold diffLastWriteNextOutput; cbn. constants. Z.div_mod_to_equations. lia.
  - unfold diffLastWriteNextOutput; cbn. rewrite Hw. constants.
    Z.div_mod_to_equations. lia.
Qed.

Lemma prepareWrite_cursors rb :
  cursorsInside rb →
  ∃ w, endOfLastWrite (prepareWrite rb) = Some w
       ∧ 0 ≤ w < RING_BUFFER_SAMPLES
       ∧ 0 ≤ nextOutput (prepareWrite rb) < RING_BUFFER_SAMPLES
       ∧ buffer (prepareWrite rb) = buffer rb.
Proof.
  intros (_ & Hr & Hw). unfold prepareWrite.
  destruct (endOfLastWrite rb) as [w|] eqn:E.
  - case_match; cbn; [exists 0|exists w]; rewrite ?E; constants; split_and!; try done; lia.
  - exists 0. cbn. constants. split_and!; try done; lia.
Qed.

(** The copy of an admission lands on no cell between the read cursor and
    the write cursor. *)
Lemma admitFrame_keeps_unread rb audioData k :
  cursorsInside rb → length audioData = FRAME →
  0 ≤ k < diffLastWriteNextOutput (prepareWrite rb) →
  let cell := Z.to_nat ((nextOutput (prepareWrite rb) + k) mod RING_BUFFER_SAMPLES) in
  buffer (admitFrame audioData rb) !! cell = buffer rb !! cell.
Proof.
  intros Hin Hd Hk cell. subst cell.
  pose proof (prepareWrite_fits rb Hin) as Hfit.
  destruct (prepareWrite_cursors rb Hin) as (w & Ew & Hw & Hr & Hb).
  destruct Hin as (Hl & _ & _).
  unfold admitFrame, writeFrame. rewrite Ew. cbn. rewrite Hb.
  apply memcpyFrame_outside; [constants; lia|done|].
  revert Hk Hfit. unfold diffLastWriteNextOutput. rewrite Ew.
  set (r := nextOutput (prepareWrite rb)) in *. clearbody r.
  constants. rewrite H. intros Hk Hfit.
  rewrite Z2Nat.id by (Z.div_mod_to_equations; lia).
  revert Hk Hfit. Z.div_mod_to_equations. lia.
Qed.

(** ** The jitter policy on one buffer *)

(** A buffering source starts exactly when the guard of line 93 fails. *)
Lemma mixSource_buffering rb :
  started rb = false →
  (started (mixSource rb).1 = true
   ↔ BUFFER_LENGTH_SAMPLES + JITTER_BUFFER_SAMPLES < diffLastWriteNextOutput rb)
  ∧ (is_Some (mixSource rb).2
     ↔ BUFFER_LENGTH_SAMPLES + JITTER_BUFFER_SAMPLES < diffLastWriteNextOutput rb)
  ∧ (diffLastWriteNextOutput rb ≤ BUFFER_LENGTH_SAMPLES + JITTER_BUFFER_SAMPLES →
     mixSource rb = (rb, None)).
Proof.
  intros Hs. unfold mixSource, diffLastWriteNextOutput.
  destruct (endOfLastWrite rb) as [w|] eqn:E.
  - rewrite Hs. cbn [negb andb].
    set (d := (w - nextOutput rb + RING_BUFFER_SAMPLES) mod RING_BUFFER_SAMPLES).
    destruct (Z.leb_spec d (BUFFER_LENGTH_SAMPLES + JITTER_BUFFER_SAMPLES)) as [Hle|Hgt].
    + cbn. rewrite Hs. split_and!; try done; split; intros Hx; try done; try lia.
    + destruct (Z.ltb_spec d BUFFER_LENGTH_SAMPLES) as [Hlt|Hge].
      * constants. lia.
      * cbn. split_and!; try (intros; lia); split; intros; done.
  - cbn. rewrite Hs. constants.
    split_and!; try done; split; intros Hx; try done; try lia.
Qed.

(** A started source with less than a frame left is starved: only the
    [started] flag changes. *)
Lemma mixSource_starved rb :
  is_Some (endOfLastWrite rb) → started rb = true →
  diffLastWriteNextOutput rb < BUFFER_LENGTH_SAMPLES →
  mixSource rb = (set_started false rb, None).
Proof.
  intros [w E] Hs Hd. unfold mixSource. rewrite E, Hs. cbn [negb andb].
  destruct (Z.ltb_spec (diffLastWriteNextOutput rb) BUFFER_LENGTH_SAMPLES); [done|lia].
Qed.

Lemma mixSource_contributes rb :
  contributes rb = true →
  mixSource rb = (set_nextOutput (advance (nextOutput rb)) (set_started true rb),
                  Some (frameAt (buffer rb) (nextOutput rb))).
Proof.
  unfold contributes. intros H%bool_decide_eq_true. revert H.
  unfold mixSource, readFrame. destruct (endOfLastWrite rb); [|by intros [? [=]]].
  repeat case_match; cbn; by intros [? [=]].
Qed.

Lemma mixSource_silent rb :
  contributes rb = false → (mixSource rb).2 = None.
Proof.
  unfold contributes. intros H%bool_decide_eq_false.
  destruct (mixSource rb).2; [|done]. destruct H. by eexists.
Qed.

(** ** The two loops of a mix cycle *)

Lemma foldl_ext_in {A B} (f g : A → B → A) (l : list B) (a : A) :
  (∀ x b, b ∈ l → f x b = g x b) → foldl f a l = foldl g a l.
Proof.
  revert a. induction l as [|b l IH]; intros a H; [done|]. cbn.
  rewrite H by left. apply IH. intros x b' Hb'. apply H. by right.
Qed.

Lemma omap_ext_in {A B} (f g : A → option B) (l : list A) :
  (∀ x, x ∈ l → f x = g x) → omap f l = omap g l.
Proof.
  induction l as [|a l IH]; intros H; [done|]. cbn.
  rewrite H by left. rewrite IH; [done|]. intros x Hx. apply H. by right.
Qed.

Lemma mixSourceAt_eq b sbs ags masterMix rb :
  sbs !! b = Some rb →
  mixSourceAt b (sbs, ags, masterMix)
  = Some (<[b := (mixSource rb).1]> sbs,
          if contributes rb then alter (set_bufferTransmitted true) b ags else ags,
          foldSource sbs masterMix b).
Proof.
  intros E. unfold mixSourceAt, foldSource, contributes. rewrite E. cbn [mbind option_bind].
  destruct (mixSource rb) as [rb' [frame|]]; cbn [fst snd].
  - by rewrite bool_decide_eq_true_2 by (by eexists).
  - by rewrite bool_decide_eq_false_2 by (apply is_Some_None).
Qed.

Lemma forEach_mixSourceAt idx : ∀ sbs ags masterMix,
  NoDup idx → (∀ b, b ∈ idx → (b < length sbs)%nat) →
  ∃ sbs' ags',
    forEach mixSourceAt idx (sbs, ags, masterMix)
    = Some (sbs', ags', foldl (foldSource sbs) masterMix idx)
    ∧ length sbs' = length sbs
    ∧ length ags' = length ags
    ∧ (∀ j, sbs' !! j = if decide (j ∈ idx)
                        then (λ rb, (mixSource rb).1) <$> sbs !! j else sbs !! j)
    ∧ (∀ j, ags' !! j = if decide (j ∈ idx)
                        then afterMix sbs j <$> ags !! j else ags !! j).
Proof.
  induction idx as [|b idx IH]; intros sbs ags mm Hnd Hlt.
  - exists sbs, ags. cbn. split_and!; try done.
    all: intros j; case_decide as Hj; [by apply elem_of_nil in Hj|done].
  - apply NoDup_cons in Hnd as [Hb Hnd].
    destruct (lookup_lt_is_Some_2 sbs b) as [rb Erb]; [apply Hlt; left|].
    set (ags1 := if contributes rb then alter (set_bufferTransmitted true) b ags else ags).
    destruct (IH (<[b:=(mixSource rb).1]> sbs) ags1 (foldSource sbs mm b) Hnd)
      as (sbs' & ags' & Hrun & Hls & Hla & Hsb & Hag).
    { intros j Hj. rewrite length_insert. apply Hlt. by right. }
    exists sbs', ags'. split_and!.
    + cbn [forEach foldl]. rewrite (mixSourceAt_eq _ _ _ _ _ Erb). cbn [mbind option_bind].
      fold ags1. rewrite Hrun. do 2 f_equal.
      apply foldl_ext_in. intros x j Hj. unfold foldSource.
      rewrite list_lookup_insert_ne; [done|]. intros ->. done.
    + by rewrite Hls, length_insert.
    + rewrite Hla. subst ags1. destruct (contributes rb); [apply length_alter|done].
    + intros j. rewrite Hsb. destruct (decide (j = b)) as [->|Hne].
      * rewrite decide_False by done. rewrite decide_True by left.
        rewrite list_lookup_insert_eq by (apply Hlt; left). by rewrite Erb.
      * rewrite list_lookup_insert_ne by done.
        destruct (decide (j ∈ idx)) as [Hj|Hj].
        -- rewrite decide_True by (by right). done.
        -- rewrite decide_False; [done|]. by intros [?|?]%elem_of_cons.
    + intros j. rewrite Hag. destruct (decide (j = b)) as [->|Hne].
      * rewrite decide_False by done. rewrite decide_True by left.
        unfold afterMix. rewrite Erb. subst ags1. destruct (contributes rb).
        -- apply list_lookup_alter_eq.
        -- by destruct (ags !! b).
      * assert (ags1 !! j = ags !! j) as ->.
        { subst ags1. destruct (contributes rb); [by apply list_lookup_alter_ne|done]. }
        unfold afterMix. rewrite list_lookup_insert_ne by done.
        destruct (decide (j ∈ idx)) as [Hj|Hj].
        -- rewrite decide_True by (by right). done.
        -- rewrite decide_False; [done|]. by intros [?|?]%elem_of_cons.
Qed.

Lemma sendTo_eq sendTime masterMix sbs a ags sent ag :
  ags !! a = Some ag → (a < length sbs)%nat →
  sendTo sendTime masterMix sbs a (ags, sent)
  = Some (<[a := afterSend sendTime ag]> ags,
          sent ++ option_list (packetFor sendTime masterMix sbs a ag)).
Proof.
  intros E Ha. destruct (lookup_lt_is_Some_2 sbs a Ha) as [rb Erb].
  unfold sendTo, packetFor, afterSend, previousFrame. rewrite E. cbn [mbind option_bind].
  destruct (live sendTime ag); cbn [andb option_list].
  - destruct (bufferTransmitted ag); rewrite ?Erb; cbn; [done|].
    by rewrite list_insert_id.
  - by rewrite list_insert_id, app_nil_r.
Qed.

Lemma forEach_sendTo sendTime masterMix sbs idx : ∀ ags sent,
  NoDup idx → (∀ a, a ∈ idx → (a < length ags)%nat ∧ (a < length sbs)%nat) →
  ∃ ags',
    forEach (sendTo sendTime masterMix sbs) idx (ags, sent)
    = Some (ags', sent ++ omap (λ a, ag ← ags !! a; packetFor sendTime masterMix sbs a ag) idx)
    ∧ length ags' = length ags
    ∧ (∀ j, ags' !! j = if decide (j ∈ idx)
                        then afterSend sendTime <$> ags !! j else ags !! j).
Proof.
  induction idx as [|a idx IH]; intros ags sent Hnd Hlt.
  - exists ags. cbn. rewrite app_nil_r. split_and!; try done.
    all: intros j; case_decide as Hj; [by apply elem_of_nil in Hj|done].
  - apply NoDup_cons in Hnd as [Ha Hnd].
    destruct (Hlt a) as [Hla Hls]; [left|].
    destruct (lookup_lt_is_Some_2 ags a Hla) as [ag Eag].
    destruct (IH (<[a := afterSend sendTime ag]> ags)
                 (sent ++ option_list (packetFor sendTime masterMix sbs a ag)) Hnd)
      as (ags' & Hrun & Hl & Hag).
    { intros j Hj. rewrite length_insert. apply Hlt. by right. }
    exists ags'. split_and!.
    + cbn [forEach]. rewrite (sendTo_eq _ _ _ _ _ _ _ Eag Hls). cbn [mbind option_bind].
      rewrite Hrun. do 2 f_equal. rewrite <- app_assoc. f_equal.
      cbn [omap list_omap]. rewrite Eag. cbn [mbind option_bind].
      assert (omap (λ a0, ag0 ← <[a:=afterSend sendTime ag]> ags !! a0;
                          packetFor sendTime masterMix sbs a0 ag0) idx
              = omap (λ a0, ag0 ← ags !! a0; packetFor sendTime masterMix sbs a0 ag0) idx)
        as ->.
      { apply omap_ext_in. intros j Hj.
        rewrite list_lookup_insert_ne; [done|]. by intros ->. }
      by destruct (packetFor sendTime masterMix sbs a ag).
    + by rewrite Hl, length_insert.
    + intros j. rewrite Hag. destruct (decide (j = a)) as [->|Hne].
      * rewrite decide_False by done. rewrite decide_True by left.
        rewrite list_lookup_insert_eq by done. by rewrite Eag.
      * rewrite list_lookup_insert_ne by done.
        destruct (decide (j ∈ idx)) as [Hj|Hj].
        -- rewrite decide_True by (by right). done.
        -- rewrite decide_False; [done|]. by intros [?|?]%elem_of_cons.
Qed.

(** ** The tables of the mixer *)

Lemma MAX_values : MAX_SOURCE_BUFFERS = 20%nat ∧ MAX_AGENTS = 1000%nat.
Proof. done. Qed.

(** One mix cycle, in closed form. *)
Lemma mixCycle_run sendTime s :
  tablesOK s →
  ∃ s' masterMix sent,
    mixCycle sendTime s = Some (s', masterMix, sent)
    ∧ masterMix = foldl (foldSource (sourceBuffers s)) (replicate FRAME 0)
                        (seq 0 MAX_SOURCE_BUFFERS)
    ∧ sourceBuffers s' = (λ rb, (mixSource rb).1) <$> sourceBuffers s
    ∧ numAgents s' = numAgents s
    ∧ length (agents s') = length (agents s)
    ∧ (∀ j, agents s' !! j
            = (λ ag, if decide (j < numAgents s)%nat
                     then afterSend sendTime (afterMix (sourceBuffers s) j ag)
                     else afterMix (sourceBuffers s) j ag) <$> agents s !! j)
    ∧ sent = omap (λ a, ag ← agents s !! a;
                        packetFor sendTime masterMix (sourceBuffers s') a
                                  (afterMix (sourceBuffers s) a ag))
                  (seq 0 (numAgents s)).
Proof.
  intros (Hla & Hls & Hn & Haddr).
  destruct (forEach_mixSourceAt (seq 0 MAX_SOURCE_BUFFERS) (sourceBuffers s) (agents s)
              (replicate FRAME 0)) as (sbs & ags & Hrun1 & Hls1 & Hla1 & Hsb & Hag).
  { apply NoDup_seq. }
  { intros b Hb%elem_of_seq. lia. }
  assert (sbs = (λ rb, (mixSource rb).1) <$> sourceBuffers s) as Esbs.
  { apply list_eq. intros j. rewrite Hsb, list_lookup_fmap. case_decide as Hj; [done|].
    rewrite lookup_ge_None_2; [done|]. rewrite elem_of_seq in Hj. lia. }
  assert (∀ j, ags !! j = afterMix (sourceBuffers s) j <$> agents s !! j) as Hag'.
  { intros j. rewrite Hag. case_decide as Hj; [done|].
    unfold afterMix. rewrite (lookup_ge_None_2 (sourceBuffers s)).
    - by destruct (agents s !! j).
    - rewrite elem_of_seq in Hj. lia. }
  destruct (forEach_sendTo sendTime (foldl (foldSource (sourceBuffers s)) (replicate FRAME 0)
              (seq 0 MAX_SOURCE_BUFFERS)) sbs (seq 0 (numAgents s)) ags [])
    as (ags' & Hrun2 & Hla2 & Hag2).
  { apply NoDup_seq. }
  { intros a Ha%elem_of_seq. destruct MAX_values as [E1 E2]. lia. }
  eexists _, _, _. split_and!.
  - unfold mixCycle. rewrite Hrun1. cbn [mbind option_bind]. rewrite Hrun2.
    cbn [mbind option_bind]. reflexivity.
  - done.
  - done.
  - done.
  - cbn. lia.
  - intros j. cbn [agents]. rewrite Hag2, Hag'. rewrite <- option_fmap_compose.
    destruct (agents s !! j) as [ag|]; [|by case_decide].
    cbn. case_decide as Hj; case_decide as Hj'; try done.
    + rewrite elem_of_seq in Hj. lia.
    + rewrite elem_of_seq in Hj. lia.
  - cbn [app sourceBuffers]. apply omap_ext_in. intros a _. rewrite Hag'.
    by destruct (agents s !! a).
Qed.

Lemma tablesOK_address s i ag :
  tablesOK s → (i < numAgents s)%nat → agents s !! i = Some ag → is_Some (address ag).
Proof.
  intros (_ & _ & _ & H) Hi E.
  eapply (proj1 (Forall_lookup _ _) H i). by rewrite lookup_take_lt.
Qed.

Lemma tablesOK_initial : tablesOK initialMixer.
Proof. by apply (bool_decide_unpack _); vm_compute. Qed.

Lemma ringOK_initial : Forall ringOK (sourceBuffers initialMixer).
Proof. apply Forall_replicate, ringOK_new. Qed.

(** A mix cycle keeps the tables well formed. *)
Lemma tablesOK_mixCycle sendTime s s' masterMix sent :
  tablesOK s → mixCycle sendTime s = Some (s', masterMix, sent) → tablesOK s'.
Proof.
  intros Hok Hrun.
  destruct (mixCycle_run sendTime s Hok)
    as (s1 & mm1 & sent1 & Hrun1 & _ & Hsb & Hn & Hla & Hag & _).
  rewrite Hrun in Hrun1. injection Hrun1 as <- <- <-.
  destruct Hok as (Hl1 & Hl2 & Hle & Haddr).
  unfold tablesOK. rewrite Hn, Hla, Hsb, length_fmap. split_and!; try done.
  apply Forall_lookup. intros i ag'. rewrite lookup_take.
  case_decide as Hi; [|done]. rewrite Hag.
  destruct (agents s !! i) as [ag|] eqn:E; [|done]. cbn. intros [= <-].
  assert (is_Some (address ag)) as Hsome.
  { eapply (proj1 (Forall_lookup _ _) Haddr i). by rewrite lookup_take_lt. }
  unfold afterSend, afterMix.
  repeat case_match; done.
Qed.

(** A mix cycle keeps every ring buffer frame-aligned. *)
Lemma ringOK_mixCycle sendTime s s' masterMix sent :
  tablesOK s → Forall ringOK (sourceBuffers s) →
  mixCycle sendTime s = Some (s', masterMix, sent) → Forall ringOK (sourceBuffers s').
Proof.
  intros Hok Hr Hrun.
  destruct (mixCycle_run sendTime s Hok)
    as (s1 & mm1 & sent1 & Hrun1 & _ & Hsb & _).
  rewrite Hrun in Hrun1. injection Hrun1 as <- <- <-.
  rewrite Hsb. apply Forall_fmap. eapply Forall_impl; [done|].
  intros rb. apply ringOK_mixSource.
Qed.

(** ** The search of addAgent *)

Lemma sameAgent_true addr prt ag :
  sameAgent addr prt ag = Some true ↔ hasIdentity addr prt ag.
Proof.
  unfold sameAgent, hasIdentity. destruct (address ag) as [known|]; cbn.
  - split.
    + intros [= [H1%bool_decide_eq_true H2%Z.eqb_eq]%andb_true_iff]. by subst.
    + intros [[= ->] <-]. by rewrite bool_decide_eq_true_2, Z.eqb_refl.
  - split; [done|by intros [? _]].
Qed.

Lemma sameAgent_false addr prt ag :
  is_Some (address ag) → ¬ hasIdentity addr prt ag → sameAgent addr prt ag = Some false.
Proof.
  intros [known E] Hno. unfold sameAgent. rewrite E. cbn. f_equal.
  apply not_true_is_false. intros [H1%bool_decide_eq_true H2%Z.eqb_eq]%andb_true_iff.
  apply Hno. by subst.
Qed.

(** The search stops at the first entry with the identity, or at the end of
    the entries in use. *)
Lemma searchAgents_first addr prt ags : ∀ remaining i k,
  (∀ j ag, (i ≤ j < k)%nat → ags !! j = Some ag →
           is_Some (address ag) ∧ ¬ hasIdentity addr prt ag) →
  (i ≤ k ≤ i + remaining)%nat →
  (k < i + remaining → ∃ ag, ags !! k = Some ag ∧ hasIdentity addr prt ag)%nat →
  (k ≤ length ags)%nat →
  searchAgents addr prt ags i remaining = Some k.
Proof.
  induction remaining as [|n IH]; intros i k Hbefore Hik Hat Hlen; cbn.
  - f_equal. lia.
  - destruct (decide (i = k)) as [->|Hne].
    + destruct Hat as (ag & E & Hid); [lia|]. rewrite E. cbn.
      apply sameAgent_true in Hid. by rewrite Hid.
    + destruct (lookup_lt_is_Some_2 ags i) as [ag E]; [lia|]. rewrite E. cbn.
      destruct (Hbefore i ag) as [Hs Hno]; [lia|done|].
      rewrite (sameAgent_false _ _ _ Hs Hno). cbn.
      apply IH; [|lia| |done].
      * intros j ag' Hj. apply Hbefore. lia.
      * intros Hk. apply Hat. lia.
Qed.

Lemma searchAgents_inv addr prt ags : ∀ remaining i k,
  searchAgents addr prt ags i remaining = Some k →
  (i ≤ k ≤ i + remaining)%nat
  ∧ (∀ j ag, (i ≤ j < k)%nat → ags !! j = Some ag → ¬ hasIdentity addr prt ag)
  ∧ (k < i + remaining → ∃ ag, ags !! k = Some ag ∧ hasIdentity addr prt ag)%nat.
Proof.
  induction remaining as [|n IH]; intros i k; cbn.
  - intros [= <-]. split; [lia|]. split; intros; lia.
  - destruct (ags !! i) as [ag|] eqn:E; [|done]. cbn.
    destruct (sameAgent addr prt ag) as [[|]|] eqn:Es; [| |done]; cbn.
    + intros [= <-]. split; [lia|]. split; [intros; lia|].
      intros _. exists ag. split; [done|]. by apply sameAgent_true.
    + intros (Hk & Hbefore & Hat)%IH. split; [lia|]. split.
      * intros j ag' Hj Ej. destruct (decide (j = i)) as [->|Hne].
        -- rewrite E in Ej. injection Ej as <-.
           intros Hid%sameAgent_true. congruence.
        -- apply (Hbefore j); [lia|done].
      * intros Hlt. apply Hat. lia.
Qed.

(** ** Admission *)

Lemma addAgent_at now addr prt audioData s i ag rb :
  searchAgents addr prt (agents s) 0 (numAgents s) = Some i →
  agents s !! i = Some ag → sourceBuffers s !! i = Some rb →
  let fresh := bool_decide (i = numAgents s) || negb (active ag) in
  addAgent now addr prt audioData s
  = Some (mkMixer (<[i := refreshed now addr prt fresh ag]> (agents s))
                  (if bool_decide (i = numAgents s) then S (numAgents s) else numAgents s)
                  (<[i := admitFrame audioData rb]> (sourceBuffers s)),
          if fresh then 1 else 0).
Proof.
  intros Hs Ea Eb fresh. unfold addAgent. rewrite Hs. cbn [mbind option_bind].
  rewrite Ea. cbn [mbind option_bind]. rewrite Eb. cbn [mbind option_bind].
  subst fresh. unfold refreshed.
  by destruct (bool_decide (i = numAgents s) || negb (active ag)).
Qed.

Lemma search_known addr prt s i ag :
  tablesOK s → firstWith s addr prt i ag →
  searchAgents addr prt (agents s) 0 (numAgents s) = Some i.
Proof.
  intros Hok (Hi & E & Hid & Hfirst).
  apply searchAgents_first.
  - intros j ag' Hj Ej. split; [|apply (Hfirst j); [lia|done]].
    apply (tablesOK_address s j); [done|lia|done].
  - lia.
  - intros _. eauto.
  - apply lookup_lt_Some in E. lia.
Qed.

Lemma search_unknown addr prt s :
  tablesOK s → ¬ known s addr prt →
  searchAgents addr prt (agents s) 0 (numAgents s) = Some (numAgents s).
Proof.
  intros Hok Hno. apply searchAgents_first.
  - intros j ag Hj Ej. split.
    + apply (tablesOK_address s j); [done|lia|done].
    + intros Hid. apply Hno. exists j, ag. split_and!; [lia|done|done].
  - lia.
  - intros Hlt. lia.
  - destruct Hok as (Hl & _ & Hn & _). destruct MAX_values. lia.
Qed.

(** What an admission that returns has done: it stopped at the first entry
    with the identity, or at the end of the entries in use. *)
Lemma addAgent_inv now addr prt audioData s s' v :
  addAgent now addr prt audioData s = Some (s', v) →
  ∃ i ag rb,
    agents s !! i = Some ag ∧ sourceBuffers s !! i = Some rb
    ∧ ((i = numAgents s ∧ ¬ known s addr prt) ∨ firstWith s addr prt i ag)
    ∧ s' = mkMixer (<[i := refreshed now addr prt
                            (bool_decide (i = numAgents s) || negb (active ag)) ag]> (agents s))
                   (if bool_decide (i = numAgents s) then S (numAgents s) else numAgents s)
                   (<[i := admitFrame audioData rb]> (sourceBuffers s))
    ∧ v = if bool_decide (i = numAgents s) || negb (active ag) then 1 else 0.
Proof.
  intros Hrun.
  destruct (searchAgents addr prt (agents s) 0 (numAgents s)) as [i|] eqn:Hs;
    [|by unfold addAgent in Hrun; rewrite Hs in Hrun].
  destruct (agents s !! i) as [ag|] eqn:Ea;
    [|by unfold addAgent in Hrun; rewrite Hs in Hrun; cbn in Hrun; rewrite Ea in Hrun].
  destruct (sourceBuffers s !! i) as [rb|] eqn:Eb;
    [|by unfold addAgent in Hrun; rewrite Hs in Hrun; cbn in Hrun; rewrite Ea in Hrun;
         cbn in Hrun; rewrite Eb in Hrun].
  rewrite (addAgent_at _ _ _ _ _ _ _ _ Hs Ea Eb) in Hrun. injection Hrun as <- <-.
  exists i, ag, rb. split_and!; try done.
  apply searchAgents_inv in Hs as (Hi & Hbefore & Hat).
  destruct (decide (i = numAgents s)) as [->|Hne].
  - left. split; [done|]. intros (j & ag' & Hj & Ej & Hid).
    by apply (Hbefore j ag'); [lia|done|].
  - right. destruct Hat as (ag' & Eag' & Hid); [lia|].
    rewrite Ea in Eag'. injection Eag' as <-.
    split_and!; [lia|done|done|].
    intros j ag' Hj. apply Hbefore. lia.
Qed.

(** Admission keeps the tables well formed. *)
Lemma tablesOK_addAgent now addr prt audioData s s' v :
  tablesOK s → addAgent now addr prt audioData s = Some (s', v) → tablesOK s'.
Proof.
  intros Hok (i & ag & rb & Ea & Eb & Hcase & -> & _)%addAgent_inv.
  pose proof (lookup_lt_Some _ _ _ Eb) as Hi.
  pose proof Hok as (Hl1 & Hl2 & Hle & Haddr).
  unfold tablesOK. cbn [agents sourceBuffers numAgents].
  rewrite !length_insert. split_and!; try done.
  - case_bool_decide; lia.
  - apply Forall_lookup. intros j ag'. rewrite lookup_take.
    case_decide as Hj; [|done].
    destruct (decide (j = i)) as [->|Hne].
    + rewrite list_lookup_insert_eq by (by eapply lookup_lt_Some).
      intros [= <-]. unfold refreshed.
      destruct Hcase as [[-> _]|(Hlt & _ & [Hadr _] & _)].
      * rewrite bool_decide_eq_true_2 by done. cbn. by eexists.
      * destruct (bool_decide (i = numAgents s) || negb (active ag)); cbn;
          [by eexists|]. rewrite Hadr. by eexists.
    + rewrite list_lookup_insert_ne by done. intros Ej.
      apply (tablesOK_address s j); [done| |done].
      case_bool_decide; lia.
Qed.

(** Admission of whole frames keeps every ring buffer frame-aligned. *)
Lemma ringOK_addAgent now addr prt audioData s s' v :
  length audioData = FRAME → Forall ringOK (sourceBuffers s) →
  addAgent now addr prt audioData s = Some (s', v) → Forall ringOK (sourceBuffers s').
Proof.
  intros Hd Hr (i & ag & rb & Ea & Eb & Hcase & -> & _)%addAgent_inv.
  cbn [sourceBuffers]. apply Forall_insert; [done|].
  apply ringOK_admitFrame; [done|].
  by eapply (proj1 (Forall_lookup _ _) Hr i).
Qed.

(** ** A cycle with a single contributor *)

Lemma addFrame_zero frame : ∀ n, (length frame ≤ n)%nat → addFrame (replicate n 0) frame = frame.
Proof.
  unfold addFrame. induction frame as [|x frame IH]; intros [|n] Hn; cbn in *; try done; try lia.
  f_equal. apply IH. lia.
Qed.

Lemma length_frameAt buf off :
  0 ≤ off → off + BUFFER_LENGTH_SAMPLES ≤ Z.of_nat (length buf) →
  length (frameAt buf off) = FRAME.
Proof.
  intros H0 H1. unfold frameAt. rewrite length_take, length_drop. constants. lia.
Qed.

Lemma length_frameAt_le buf off : (length (frameAt buf off) ≤ FRAME)%nat.
Proof. unfold frameAt. rewrite length_take. lia. Qed.

Lemma self_cancel frame :
  zip_with (λ m p, clip (m - p)) frame frame = replicate (length frame) 0.
Proof.
  induction frame as [|x frame IH]; [done|]. cbn [zip_with length replicate].
  rewrite IH, Z.sub_diag. done.
Qed.

(** After a read, lines 120-122 find the frame that was read. *)
Lemma previousOffset_read rb :
  onFrame (nextOutput rb) →
  previousOffset (set_nextOutput (advance (nextOutput rb)) (set_started true rb))
  = nextOutput rb.
Proof.
  intros Hr. pose proof (onFrame_fits _ Hr) as Hfit. destruct Hr as [Hr Hm].
  unfold previousOffset, advance. cbn [nextOutput set_nextOutput set_started].
  revert Hfit. constants. intros Hfit.
  destruct (Z.leb_spec 5120 (nextOutput rb + 512)); cbn [Z.eqb].
  - lia.
  - destruct (Z.eqb_spec (nextOutput rb + 512) 0); lia.
Qed.

Lemma foldl_single sbs b frame idx : ∀ masterMix,
  NoDup idx →
  foldSource sbs masterMix b = addFrame masterMix frame →
  (∀ m, foldSource sbs m b = addFrame m frame) →
  (∀ j m, j ∈ idx → j ≠ b → foldSource sbs m j = m) →
  foldl (foldSource sbs) masterMix idx
  = if decide (b ∈ idx) then addFrame masterMix frame else masterMix.
Proof.
  induction idx as [|j idx IH]; intros mm Hnd _ Hb Hother.
  - cbn. by rewrite decide_False by apply not_elem_of_nil.
  - apply NoDup_cons in Hnd as [Hj Hnd]. cbn [foldl].
    destruct (decide (j = b)) as [->|Hne].
    + rewrite decide_True by left. rewrite Hb.
      rewrite IH; [|done|apply Hb|done|].
      * by rewrite decide_False.
      * intros j m Hjin. apply Hother. by right.
    + rewrite (Hother j mm); [|left|done].
      rewrite IH; [|done|apply Hb|done|].
      * destruct (decide (b ∈ idx)) as [Hin|Hin].
        -- by rewrite decide_True by (by right).
        -- rewrite decide_False; [done|]. intros [?|?]%elem_of_cons; congruence.
      * intros j' m Hjin. apply Hother. by right.
Qed.

Lemma live_afterMix sendTime sbs a ag : live sendTime (afterMix sbs a ag) = live sendTime ag.
Proof. unfold afterMix. by repeat case_match. Qed.

(** A cycle in which buffer [b] is the only one folded into the master
    mix. *)
Lemma mixCycle_single sendTime s b rb :
  tablesOK s → sourceBuffers s !! b = Some rb → ringOK rb → contributes rb = true →
  (∀ j rb', j ≠ b → sourceBuffers s !! j = Some rb' → contributes rb' = false) →
  ∃ s' masterMix sent,
    mixCycle sendTime s = Some (s', masterMix, sent)
    ∧ masterMix = frameAt (buffer rb) (nextOutput rb)
    ∧ length masterMix = FRAME
    ∧ started <$> sourceBuffers s' !! b = Some true
    ∧ (∀ p, p ∈ sent → slot p = b → payload p = replicate FRAME 0)
    ∧ (∀ p, p ∈ sent →
         ∃ ag, agents s !! slot p = Some ag ∧ (slot p < numAgents s)%nat
               ∧ live sendTime ag = true)
    ∧ (∀ ag, (b < numAgents s)%nat → agents s !! b = Some ag → live sendTime ag = true →
         ∃ p, p ∈ sent ∧ slot p = b).
Proof.
  intros Hok Eb Hr Hc Hothers.
  destruct (mixCycle_run sendTime s Hok)
    as (s' & mm & sent & Hrun & Hmm & Hsb & Hn & Hla & Hag & Hsent).
  pose proof (mixSource_contributes rb Hc) as Hmix.
  pose proof Hr as (Hlen & Hron & _). pose proof (onFrame_fits _ Hron) as Hfit.
  assert (length (frameAt (buffer rb) (nextOutput rb)) = FRAME) as Hlf.
  { apply length_frameAt; lia. }
  assert (mm = frameAt (buffer rb) (nextOutput rb)) as Emm.
  { rewrite Hmm.
    rewrite (foldl_single _ b (frameAt (buffer rb) (nextOutput rb))).
    - rewrite decide_True.
      + apply addFrame_zero. lia.
      + apply elem_of_seq. apply lookup_lt_Some in Eb.
        pose proof Hok as (_ & Hl2 & _). lia.
    - apply NoDup_seq.
    - unfold foldSource. by rewrite Eb, Hmix.
    - intros m. unfold foldSource. by rewrite Eb, Hmix.
    - intros j m _ Hne. unfold foldSource.
      destruct (sourceBuffers s !! j) as [rb'|] eqn:Ej; [|done].
      by rewrite (mixSource_silent rb') by (by eapply Hothers). }
  assert (sourceBuffers s' !! b
          = Some (set_nextOutput (advance (nextOutput rb)) (set_started true rb))) as Eb'.
  { rewrite Hsb, list_lookup_fmap, Eb. cbn. by rewrite Hmix. }
  exists s', mm, sent. split_and!; try done.
  - by rewrite Emm.
  - by rewrite Eb'.
  - intros p Hp Hslot. rewrite Hsent in Hp.
    apply list_elem_of_omap in Hp as (a & Ha & Hp).
    destruct (agents s !! a) as [ag|]; [|done]. cbn [mbind option_bind] in Hp.
    unfold packetFor in Hp. rewrite live_afterMix in Hp.
    destruct (live sendTime ag); [|done]. injection Hp as <-.
    cbn [slot] in Hslot. subst a. cbn [payload].
    unfold afterMix. rewrite Eb, Hc. cbn [bufferTransmitted set_bufferTransmitted].
    rewrite Eb'. cbn [fmap option_fmap option_map]. unfold previousFrame.
    rewrite previousOffset_read by done. cbn [buffer set_nextOutput set_started].
    cbn [clientMix]. rewrite Emm, self_cancel. by rewrite Hlf.
  - intros p Hp. rewrite Hsent in Hp.
    apply list_elem_of_omap in Hp as (a & Ha & Hp).
    destruct (agents s !! a) as [ag|] eqn:Ea; [|done]. cbn [mbind option_bind] in Hp.
    unfold packetFor in Hp. rewrite live_afterMix in Hp.
    destruct (live sendTime ag) eqn:Hl; [|done]. injection Hp as <-. cbn [slot].
    exists ag. split_and!; try done. apply elem_of_seq in Ha. lia.
  - intros ag Hb Ea Hl. eexists. split.
    + rewrite Hsent. apply list_elem_of_omap. exists b. split.
      * apply elem_of_seq. lia.
      * rewrite Ea. cbn [mbind option_bind]. unfold packetFor.
        rewrite live_afterMix, Hl. reflexivity.
    + done.
Qed.

Lemma others_silent (sbs : list AudioRingBuffer) (b : nat) :
  Forall (λ rb, contributes rb = false) (delete b sbs) →
  ∀ j rb', j ≠ b → sbs !! j = Some rb' → contributes rb' = false.
Proof.
  intros H j rb' Hne E.
  destruct (decide (j < b)%nat) as [Hlt|Hge].
  - eapply (proj1 (Forall_lookup _ _) H j). by rewrite list_lookup_delete_lt.
  - destruct j as [|j]; [lia|].
    eapply (proj1 (Forall_lookup _ _) H j). rewrite list_lookup_delete_ge by lia. done.
Qed.

(** A buffer that adds nothing can be left out of the sum. *)
Lemma foldl_skip sbs b idx : ∀ masterMix,
  (∀ m, foldSource sbs m b = m) →
  foldl (foldSource sbs) masterMix idx
  = foldl (foldSource sbs) masterMix (filter (λ j, j ≠ b) idx).
Proof.
  induction idx as [|j idx IH]; intros mm Hb; [done|]. cbn [foldl].
  destruct (decide (j = b)) as [->|Hne].
  - rewrite filter_cons_False by (by intros ?). rewrite Hb. by apply IH.
  - rewrite filter_cons_True by done. cbn [foldl]. by apply IH.
Qed.

(** On frame-aligned cursors, passing the jitter threshold is having two
    frames: 953 samples is not a whole number of frames. *)
Lemma threshold_on_frames rb :
  ringOK rb →
  (BUFFER_LENGTH_SAMPLES + JITTER_BUFFER_SAMPLES < diffLastWriteNextOutput rb
   ↔ 2 * BUFFER_LENGTH_SAMPLES ≤ diffLastWriteNextOutput rb).
Proof.
  intros Hm%diff_onFrame. revert Hm. constants. Z.div_mod_to_equations. lia.
Qed.

(** ** The width of the master accumulator *)

Lemma addFrame_bound (B : Z) masterMix : ∀ frame,
  Forall (λ m, - B ≤ m ≤ B) masterMix → Forall int16 frame →
  Forall (λ m, - (B + 32768) ≤ m ≤ B + 32768) (addFrame masterMix frame).
Proof.
  unfold addFrame, int16, MIN_SAMPLE_VALUE, MAX_SAMPLE_VALUE.
  induction masterMix as [|m mm IH]; intros [|x frame] Hm Hf; cbn; try constructor.
  - apply Forall_cons in Hm as [Hm _]. apply Forall_cons in Hf as [Hx _]. lia.
  - apply Forall_cons in Hm as [_ Hm]. apply Forall_cons in Hf as [_ Hf]. by apply IH.
Qed.

Lemma foldSource_bound sbs (B : Z) masterMix b :
  Forall (λ rb, Forall int16 (buffer rb)) sbs →
  Forall (λ m, - B ≤ m ≤ B) masterMix →
  Forall (λ m, - (B + 32768) ≤ m ≤ B + 32768) (foldSource sbs masterMix b).
Proof.
  intros Hs Hm. unfold foldSource.
  assert (Forall (λ m, - (B + 32768) ≤ m ≤ B + 32768) masterMix) as Hweak.
  { eapply Forall_impl; [done|]. cbn. intros; lia. }
  destruct (sbs !! b) as [rb|] eqn:Eb; [|done].
  destruct (mixSource rb).2 as [frame|] eqn:Ef; [|done].
  assert (contributes rb = true) as Hc.
  { unfold contributes. rewrite Ef. by apply bool_decide_eq_true_2. }
  rewrite (mixSource_contributes rb Hc) in Ef. injection Ef as <-.
  apply addFrame_bound; [done|].
  unfold frameAt. apply Forall_take, Forall_drop.
  by eapply (proj1 (Forall_lookup _ _) Hs b).
Qed.

(** With 16-bit samples in the buffers, a cell of the master mix stays
    within [MAX_SOURCE_BUFFERS * 32768] in absolute value: the sums of lines
    102-104 cannot leave the range of [long]. *)
Lemma masterMix_bound sbs idx : ∀ (B : Z) masterMix,
  Forall (λ rb, Forall int16 (buffer rb)) sbs →
  Forall (λ m, - B ≤ m ≤ B) masterMix →
  Forall (λ m, - (B + Z.of_nat (length idx) * 32768) ≤ m
               ≤ B + Z.of_nat (length idx) * 32768)
         (foldl (foldSource sbs) masterMix idx).
Proof.
  induction idx as [|b idx IH]; intros B mm Hs Hm.
  - cbn. eapply Forall_impl; [done|]. cbn. intros; lia.
  - cbn [foldl length].
    eapply Forall_impl; [apply (IH (B + 32768)); [done|by apply foldSource_bound]|].
    cbn. intros; lia.
Qed.

(** ** Admission and the size of the table *)

Lemma searchAgents_total addr prt ags : ∀ remaining i,
  (∀ j ag, (i ≤ j < i + remaining)%nat → ags !! j = Some ag → is_Some (address ag)) →
  (i + remaining ≤ length ags)%nat →
  is_Some (searchAgents addr prt ags i remaining).
Proof.
  induction remaining as [|n IH]; intros i Haddr Hlen; cbn; [by eexists|].
  destruct (lookup_lt_is_Some_2 ags i) as [ag E]; [lia|]. rewrite E. cbn.
  destruct (Haddr i ag) as [a Ea]; [lia|done|].
  unfold sameAgent. rewrite Ea. cbn.
  case_match; [by eexists|]. apply IH; [|lia].
  intros j ag' Hj. apply Haddr. lia.
Qed.

(** With room in the table, or a sender already in it, the admission
    returns. *)
Lemma addAgent_total now addr prt audioData s :
  tablesOK s → (numAgents s < MAX_SOURCE_BUFFERS)%nat ∨ known s addr prt →
  is_Some (addAgent now addr prt audioData s).
Proof.
  intros Hok Hroom. pose proof Hok as (Hla & Hls & Hn & _).
  destruct MAX_values as [E1 E2].
  destruct (searchAgents_total addr prt (agents s) (numAgents s) 0) as [i Hs].
  { intros j ag Hj. apply (tablesOK_address s j); [done|lia]. }
  { lia. }
  pose proof (searchAgents_inv _ _ _ _ _ _ Hs) as (Hi & Hbefore & Hat).
  assert (i < MAX_SOURCE_BUFFERS)%nat as Hlt.
  { destruct Hroom as [?|(j & ag & Hj & Ej & Hid)]; [lia|].
    destruct (decide (i = numAgents s)) as [->|?]; [|lia].
    by destruct (Hbefore j ag); [lia|done|]. }
  destruct (lookup_lt_is_Some_2 (agents s) i) as [ag Ea]; [lia|].
  destruct (lookup_lt_is_Some_2 (sourceBuffers s) i) as [rb Eb]; [lia|].
  rewrite (addAgent_at _ _ _ _ _ _ _ _ Hs Ea Eb). by eexists.
Qed.

(** ** The pacing of the loop *)

Lemma deadline_formula startTime currentFrame :
  (deadline startTime currentFrame
   == usecTimestamp startTime 0 + inject_Z currentFrame * BUFFER_SEND_INTERVAL_USECS)%Q.
Proof. unfold deadline, usecTimestamp. ring. Qed.

(** The loop runs every cycle it has clock readings for, and the pause of
    each cycle is computed from the frame counter of that cycle. *)
Lemma sendBufferLoop_run startTime : ∀ clock currentFrame s,
  tablesOK s →
  ∃ s' trace,
    sendBufferLoop startTime clock currentFrame s
    = Some (s', currentFrame + Z.of_nat (length clock), trace)
    ∧ tablesOK s'
    ∧ length trace = length clock
    ∧ ∀ (k : nat) sendTime now,
        clock !! k = Some (sendTime, now) →
        snd <$> trace !! k = Some (pace startTime (currentFrame + Z.of_nat k) now).
Proof.
  induction clock as [|[sendTime now] clock IH]; intros currentFrame s Hok.
  - exists s, []. cbn. rewrite Z.add_0_r. split_and!; try done.
  - destruct (mixCycle_run sendTime s Hok) as (s1 & mm & sent & Hrun & _).
    pose proof (tablesOK_mixCycle _ _ _ _ _ Hok Hrun) as Hok1.
    destruct (IH (currentFrame + 1) s1 Hok1) as (s' & trace & Hloop & Hok' & Hlen & Hk).
    exists s', ((sent, pace startTime currentFrame now) :: trace).
    split_and!; try done.
    + cbn [sendBufferLoop]. rewrite Hrun. cbn [mbind option_bind]. rewrite Hloop.
      cbn [mbind option_bind length]. do 3 f_equal. lia.
    + cbn. by rewrite Hlen.
    + intros [|k] sendTime' now' E.
      * injection E as <- <-. cbn. by rewrite Z.add_0_r.
      * change (clock !! k = Some (sendTime', now')) in E.
        change (snd <$> trace !! k
                = Some (pace startTime (currentFrame + Z.of_nat (S k)) now')).
        rewrite (Hk k _ _ E). do 2 f_equal. lia.
Qed.

(** * The statements of the design document *)

(** C1. In a mix cycle in which exactly one peer's buffer is folded into
    the master mix, the master accumulator is that peer's frame, sample for
    sample, the peer is in the Started state, and the packet composed for
    and sent to that peer is all zero. *)
Theorem only_contributor_hears_silence sendTime s b rb ag :
  tablesOK s → (b < numAgents s)%nat →
  agents s !! b = Some ag → live sendTime ag = true →
  sourceBuffers s !! b = Some rb → ringOK rb → contributes rb = true →
  (∀ j rb', j ≠ b → sourceBuffers s !! j = Some rb' → contributes rb' = false) →
  ∃ s' masterMix sent,
    mixCycle sendTime s = Some (s', masterMix, sent)
    ∧ masterMix = frameAt (buffer rb) (nextOutput rb)
    ∧ length masterMix = FRAME
    ∧ started <$> sourceBuffers s' !! b = Some true
    ∧ (∃ p, p ∈ sent ∧ slot p = b)
    ∧ (∀ p, p ∈ sent → slot p = b → payload p = replicate FRAME 0).
Proof.
  intros Hok Hb Ea Hl Eb Hr Hc Hothers.
  destruct (mixCycle_single sendTime s b rb Hok Eb Hr Hc Hothers)
    as (s' & mm & sent & Hrun & Hmm & Hlen & Hst & Hzero & _ & Hex).
  exists s', mm, sent. split_and!; try done. by apply (Hex ag).
Qed.

Lemma only_contributor_hears_silence_witness :
  frameAt (buffer onePeerBuffer) (nextOutput onePeerBuffer) = tone 100
  ∧ ∃ s' masterMix sent,
      mixCycle (mkTimeval 100 500) onePeer = Some (s', masterMix, sent)
      ∧ masterMix = frameAt (buffer onePeerBuffer) (nextOutput onePeerBuffer)
      ∧ length masterMix = FRAME
      ∧ started <$> sourceBuffers s' !! 0%nat = Some true
      ∧ (∃ p, p ∈ sent ∧ slot p = 0%nat)
      ∧ (∀ p, p ∈ sent → slot p = 0%nat → payload p = replicate FRAME 0).
Proof.
  split; [by vm_compute|].
  apply (only_contributor_hears_silence (mkTimeval 100 500) onePeer 0 onePeerBuffer
           onePeerAgent).
  - by apply (bool_decide_unpack _); vm_compute.
  - vm_compute. lia.
  - by vm_compute.
  - by vm_compute.
  - by vm_compute.
  - by apply (bool_decide_unpack _); vm_compute.
  - by vm_compute.
  - apply others_silent. by apply (bool_decide_unpack _); vm_compute.
Defined.










(** C5. Every sample of a composed output frame is the wide sample of
    lines 127-129 saturated into the range of [int16_t]: above the maximum
    it is exactly the maximum, below the minimum exactly the minimum, in
    range unchanged; the narrowing store never wraps. *)
Theorem clip_saturates masterMix previousOutput (i : nat) (y : Z) :
  clientMix masterMix previousOutput !! i = Some y →
  ∃ m longSample,
    masterMix !! i = Some m
    ∧ longSample = match previousOutput with
                   | Some prev => m - default 0 (prev !! i)
                   | None => m
                   end
    ∧ y = clip longSample
    ∧ MIN_SAMPLE_VALUE ≤ y ≤ MAX_SAMPLE_VALUE
    ∧ (MAX_SAMPLE_VALUE < longSample → y = MAX_SAMPLE_VALUE)
    ∧ (longSample < MIN_SAMPLE_VALUE → y = MIN_SAMPLE_VALUE)
    ∧ (MIN_SAMPLE_VALUE ≤ longSample ≤ MAX_SAMPLE_VALUE → y = longSample).
Proof.
  intros (m & Hm & ->)%clientMix_lookup.
  eexists m, _. split; [done|]. split; [reflexivity|]. split; [done|].
  apply clip_cases.
Qed.

Lemma clip_saturates_witness :
  clip 60000 = 32767 ∧ clip (-40000 - 100) = -32768 ∧ clip (250 - 100) = 150
  ∧ ∃ m longSample,
      [30000 + 30000; -40000; 250] !! 0%nat = Some m
      ∧ longSample = m
      ∧ 32767 = clip longSample
      ∧ MIN_SAMPLE_VALUE ≤ 32767 ≤ MAX_SAMPLE_VALUE
      ∧ (MAX_SAMPLE_VALUE < longSample → 32767 = MAX_SAMPLE_VALUE)
      ∧ (longSample < MIN_SAMPLE_VALUE → 32767 = MIN_SAMPLE_VALUE)
      ∧ (MIN_SAMPLE_VALUE ≤ longSample ≤ MAX_SAMPLE_VALUE → 32767 = longSample).
Proof.
  split; [reflexivity|]. split; [reflexivity|]. split; [reflexivity|].
  apply (clip_saturates [30000 + 30000; -40000; 250] None 0 32767).
  reflexivity.
Defined.

(** C6, as stated, fails: the samples of a peer outside the liveness window
    are folded into the master mix all the same (the loop of lines 90-113
    does not look at the clock); only the send is skipped. *)
Lemma stale_peer_counterexample :
  live stalePeerTime <$> agents onePeer !! 0%nat = Some false
  ∧ mixedAndSent stalePeerTime onePeer = Some (tone 100, []).
Proof. split; vm_compute; reflexivity. Qed.

(** C6, amended. A peer whose last inbound frame is older than the liveness
    window is sent no composed frame in the mix cycle.  The master mix does
    not depend on liveness: it is the sum over the source buffers alone, and
    the peer's buffer goes through the jitter policy and is read like any
    other. *)
Theorem stale_peer_not_sent sendTime s a ag :
  tablesOK s → agents s !! a = Some ag → live sendTime ag = false →
  ∃ s' masterMix sent,
    mixCycle sendTime s = Some (s', masterMix, sent)
    ∧ (∀ p, p ∈ sent → slot p ≠ a)
    ∧ masterMix = foldl (foldSource (sourceBuffers s)) (replicate FRAME 0)
                        (seq 0 MAX_SOURCE_BUFFERS)
    ∧ sourceBuffers s' !! a = (λ rb, (mixSource rb).1) <$> sourceBuffers s !! a.
Proof.
  intros Hok Ea Hl.
  destruct (mixCycle_run sendTime s Hok)
    as (s' & mm & sent & Hrun & Hmm & Hsb & _ & _ & _ & Hsent).
  exists s', mm, sent. split_and!; try done.
  - intros p Hp Hslot. rewrite Hsent in Hp.
    apply list_elem_of_omap in Hp as (a' & _ & Hp).
    destruct (agents s !! a') as [ag'|] eqn:Ea'; [|done]. cbn [mbind option_bind] in Hp.
    unfold packetFor in Hp. rewrite live_afterMix in Hp.
    destruct (live sendTime ag') eqn:Hl'; [|done]. injection Hp as <-.
    cbn [slot] in Hslot. subst a'. congruence.
  - by rewrite Hsb, list_lookup_fmap.
Qed.

Lemma stale_peer_not_sent_witness :
  ∃ s' masterMix sent,
    mixCycle stalePeerTime onePeer = Some (s', masterMix, sent)
    ∧ (∀ p, p ∈ sent → slot p ≠ 0%nat)
    ∧ masterMix = foldl (foldSource (sourceBuffers onePeer)) (replicate FRAME 0)
                        (seq 0 MAX_SOURCE_BUFFERS)
    ∧ sourceBuffers s' !! 0%nat
      = (λ rb, (mixSource rb).1) <$> sourceBuffers onePeer !! 0%nat.
Proof.
  apply (stale_peer_not_sent stalePeerTime onePeer 0 onePeerAgent).
  - apply (bool_decide_unpack _). vm_compute. exact I.
  - vm_compute. reflexivity.
  - vm_compute. reflexivity.
Defined.



(** C8. The unread backlog is always in [[0, C)], before and after a write
    and a read; on a buffer with frame-aligned cursors, writing one frame
    and then reading one frame brings the backlog back to what it was. *)
Theorem backlog_roundtrip rb audioData :
  ringOK rb → is_Some (endOfLastWrite rb) →
  let written := writeFrame audioData rb in
  let read := (readFrame written).1 in
  diffLastWriteNextOutput read = diffLastWriteNextOutput rb
  ∧ 0 ≤ diffLastWriteNextOutput rb < RING_BUFFER_SAMPLES
  ∧ 0 ≤ diffLastWriteNextOutput written < RING_BUFFER_SAMPLES
  ∧ 0 ≤ diffLastWriteNextOutput read < RING_BUFFER_SAMPLES.
Proof.
  intros Hr Hw written read. split; [by apply diff_roundtrip|].
  split_and!; apply diff_range.
Qed.

Lemma backlog_roundtrip_witness :
  diffLastWriteNextOutput onePeerBuffer = 1536
  ∧ diffLastWriteNextOutput (writeFrame (tone 7) onePeerBuffer) = 2048
  ∧ let written := writeFrame (tone 7) onePeerBuffer in
    let read := (readFrame written).1 in
    diffLastWriteNextOutput read = diffLastWriteNextOutput onePeerBuffer
    ∧ 0 ≤ diffLastWriteNextOutput onePeerBuffer < RING_BUFFER_SAMPLES
    ∧ 0 ≤ diffLastWriteNextOutput written < RING_BUFFER_SAMPLES
    ∧ 0 ≤ diffLastWriteNextOutput read < RING_BUFFER_SAMPLES.
Proof.
  split; [vm_compute; reflexivity|]. split; [vm_compute; reflexivity|].
  apply (backlog_roundtrip onePeerBuffer (tone 7)).
  - apply (bool_decide_unpack _). vm_compute. exact I.
  - vm_compute. eexists. reflexivity.
Defined.



(** C10. A frame from an identity whose table entry is in use and active
    does not grow the table: addAgent returns 0, [numAgents] is unchanged,
    and of the entry only the port and the time are written (the address,
    the active flag and [bufferTransmitted] stay) before the frame goes into
    the entry's buffer; no other entry changes.  Whenever addAgent returns,
    [numAgents] is either unchanged, for an identity in the table, or one
    more, for an identity not in the table, which then fills the entry at
    the end of the table and is reported as new. *)
Theorem known_peer_does_not_grow now addr prt audioData s :
  tablesOK s →
  (∀ i ag, firstWith s addr prt i ag → active ag = true →
     ∃ rb, sourceBuffers s !! i = Some rb
           ∧ addAgent now addr prt audioData s
             = Some (mkMixer (<[i := mkAgent (address ag) prt true now (bufferTransmitted ag)]>
                                (agents s))
                             (numAgents s)
                             (<[i := admitFrame audioData rb]> (sourceBuffers s)),
                     0))
  ∧ (∀ s' v, addAgent now addr prt audioData s = Some (s', v) →
       (numAgents s' = numAgents s ∧ known s addr prt)
       ∨ (numAgents s' = S (numAgents s) ∧ ¬ known s addr prt ∧ v = 1
          ∧ agents s' !! numAgents s = Some (mkAgent (Some addr) prt true now false))).
Proof.
  intros Hok. split.
  - intros i ag Hfirst Hact.
    pose proof (search_known _ _ _ _ _ Hok Hfirst) as Hs.
    destruct Hfirst as (Hi & Ea & Hid & _).
    pose proof Hok as (_ & Hls & Hn & _).
    destruct (lookup_lt_is_Some_2 (sourceBuffers s) i) as [rb Eb]; [lia|].
    exists rb. split; [done|].
    rewrite (addAgent_at _ _ _ _ _ _ _ _ Hs Ea Eb).
    rewrite bool_decide_eq_false_2 by lia. rewrite Hact. done.
  - intros s' v (i & ag & rb & Ea & Eb & Hcase & -> & ->)%addAgent_inv.
    cbn [numAgents agents].
    destruct Hcase as [[-> Hno]|(Hi & _ & Hid & _)].
    + right. rewrite bool_decide_eq_true_2 by done. split_and!; try done.
      rewrite list_lookup_insert_eq by (by eapply lookup_lt_Some). done.
    + left. rewrite bool_decide_eq_false_2 by lia. split; [done|].
      exists i, ag. done.
Qed.

Lemma known_peer_does_not_grow_witness :
  snd <$> addAgent (mkTimeval 101 0) "10.0.0.1" 5000 (tone 7) onePeer = Some 0
  ∧ (∀ i ag, firstWith onePeer "10.0.0.1" 5000 i ag → active ag = true →
       ∃ rb, sourceBuffers onePeer !! i = Some rb
             ∧ addAgent (mkTimeval 101 0) "10.0.0.1" 5000 (tone 7) onePeer
               = Some (mkMixer (<[i := mkAgent (address ag) 5000 true (mkTimeval 101 0)
                                         (bufferTransmitted ag)]> (agents onePeer))
                               (numAgents onePeer)
                               (<[i := admitFrame (tone 7) rb]> (sourceBuffers onePeer)),
                       0))
  ∧ (∀ s' v, addAgent (mkTimeval 101 0) "10.0.0.1" 5000 (tone 7) onePeer = Some (s', v) →
       (numAgents s' = numAgents onePeer ∧ known onePeer "10.0.0.1" 5000)
       ∨ (numAgents s' = S (numAgents onePeer) ∧ ¬ known onePeer "10.0.0.1" 5000 ∧ v = 1
          ∧ agents s' !! numAgents onePeer
            = Some (mkAgent (Some "10.0.0.1") 5000 true (mkTimeval 101 0) false))).
Proof.
  split; [vm_compute; reflexivity|].
  apply (known_peer_does_not_grow (mkTimeval 101 0) "10.0.0.1" 5000 (tone 7) onePeer).
  apply (bool_decide_unpack _). vm_compute. exact I.
Defined.

(** * Further properties of the code *)

(** ** The ring buffer as a queue of frames *)

Lemma memcpyFrame_whole buf dst audioData :
  0 ≤ dst → dst + BUFFER_LENGTH_SAMPLES ≤ Z.of_nat (length buf) →
  length audioData = FRAME →
  memcpyFrame buf dst audioData
  = take (Z.to_nat dst) buf ++ audioData ++ drop (Z.to_nat dst + FRAME) buf.
Proof.
  intros H0 H1 Hd. unfold memcpyFrame. constants.
  rewrite (take_ge audioData) by lia.
  apply take_ge. rewrite !length_app, length_take, length_drop. lia.
Qed.

(** The frame just copied is found at the place it was copied to. *)
Lemma frameAt_memcpy_same buf dst audioData :
  0 ≤ dst → dst + BUFFER_LENGTH_SAMPLES ≤ Z.of_nat (length buf) →
  length audioData = FRAME →
  frameAt (memcpyFrame buf dst audioData) dst = audioData.
Proof.
  intros H0 H1 Hd. rewrite memcpyFrame_whole by done. unfold frameAt.
  constants.
  rewrite drop_app_length' by (rewrite length_take; lia).
  by rewrite take_app_length'.
Qed.

(** A frame that does not overlap the copy is as it was. *)
Lemma frameAt_memcpy_other buf dst audioData off :
  0 ≤ dst ≤ Z.of_nat (length buf) → length audioData = FRAME → 0 ≤ off →
  off + BUFFER_LENGTH_SAMPLES ≤ dst ∨ dst + BUFFER_LENGTH_SAMPLES ≤ off →
  frameAt (memcpyFrame buf dst audioData) off = frameAt buf off.
Proof.
  intros H0 Hd Hoff Hapart. unfold frameAt. apply list_eq. intros i.
  rewrite !lookup_take. case_decide as Hi; [|done].
  rewrite !lookup_drop. apply memcpyFrame_outside; [done|done|].
  constants. lia.
Qed.

(** Cursors in units of frames. *)
Lemma onFrame_frames p : onFrame p → ∃ q, p = 512 * q ∧ 0 ≤ q < 10.
Proof.
  unfold onFrame. constants. intros [Hp Hm]. exists (p / 512).
  revert Hm. Z.div_mod_to_equations. lia.
Qed.

(** The [k]-th pending frame lies inside the storage, on a frame boundary,
    and clear of the frame at the write cursor; the frame after the last
    pending one is the frame at the write cursor. *)
Lemma pending_position r w k :
  onFrame r → onFrame w → 0 ≤ k →
  let d := (w - r + RING_BUFFER_SAMPLES) mod RING_BUFFER_SAMPLES in
  let p := (r + k * BUFFER_LENGTH_SAMPLES) mod RING_BUFFER_SAMPLES in
  d mod BUFFER_LENGTH_SAMPLES = 0
  ∧ (k * BUFFER_LENGTH_SAMPLES < d →
     onFrame p ∧ (p + BUFFER_LENGTH_SAMPLES ≤ w ∨ w + BUFFER_LENGTH_SAMPLES ≤ p))
  ∧ (k * BUFFER_LENGTH_SAMPLES = d → p = w).
Proof.
  intros (r' & -> & Hr)%onFrame_frames (w' & -> & Hw)%onFrame_frames Hk.
  unfold onFrame. constants. cbn zeta.
  replace (512 * w' - 512 * r' + 5120) with (512 * (w' - r' + 10)) by lia.
  replace (512 * r' + k * 512) with (512 * (r' + k)) by lia.
  change 5120 with (512 * 10).
  rewrite !Z.mul_mod_distr_l by lia.
  Z.div_mod_to_equations. lia.
Qed.

(** A frame admitted while there is room behind the write cursor joins the
    pending frames at the end. *)
Lemma pending_writeFrame rb w audioData :
  ringOK rb → endOfLastWrite rb = Some w → length audioData = FRAME →
  diffLastWriteNextOutput rb + 2 * BUFFER_LENGTH_SAMPLES ≤ RING_BUFFER_SAMPLES →
  pending (writeFrame audioData rb) = pending rb ++ [audioData].
Proof.
  intros (Hl & Hr & Hw) Ew Hd Hroom. rewrite Ew in Hw.
  pose proof (onFrame_fits _ Hw) as Hwfit.
  unfold pending, writeFrame, diffLastWriteNextOutput in *. rewrite Ew in *.
  cbn [buffer nextOutput endOfLastWrite set_endOfLastWrite set_buffer].
  set (r := nextOutput rb) in *. set (buf := buffer rb) in *.
  set (d := (w - r + RING_BUFFER_SAMPLES) mod RING_BUFFER_SAMPLES) in *.
  destruct (pending_position r w 0 Hr Hw) as (Hdm & _); [lia|]. fold d in Hdm.
  assert (0 ≤ d) as Hd0 by (subst d; apply Z.mod_pos_bound; by constants).
  assert ((advance w - r + RING_BUFFER_SAMPLES) mod RING_BUFFER_SAMPLES
          = d + BUFFER_LENGTH_SAMPLES) as ->.
  { rewrite advance_mod by done. subst d. destruct Hr as [Hr _], Hw as [Hw _].
    revert Hroom Hr Hw. constants. Z.div_mod_to_equations. lia. }
  replace (Z.to_nat ((d + BUFFER_LENGTH_SAMPLES) / BUFFER_LENGTH_SAMPLES))
    with (S (Z.to_nat (d / BUFFER_LENGTH_SAMPLES)))
    by (revert Hdm Hd0; constants; Z.div_mod_to_equations; lia).
  rewrite seq_S, fmap_app. cbn [fmap list_fmap]. f_equal.
  - apply list_fmap_ext. intros i k Hk. apply lookup_seq in Hk as [-> Hk]. cbn [Nat.add].
    destruct (pending_position r w (Z.of_nat i) Hr Hw) as (_ & Hin & _); [lia|].
    destruct Hin as [Hon Hapart].
    { revert Hk Hdm. fold d. constants. Z.div_mod_to_equations. lia. }
    apply frameAt_memcpy_other; [|done| |done].
    + revert Hwfit. constants. lia.
    + by destruct Hon as [[? ?] _].
  - f_equal. cbn [Nat.add].
    destruct (pending_position r w (Z.of_nat (Z.to_nat (d / BUFFER_LENGTH_SAMPLES))) Hr Hw)
      as (_ & _ & Hat); [lia|].
    rewrite Hat.
    + apply frameAt_memcpy_same; [lia| |done]. lia.
    + fold d. revert Hdm Hd0. constants. Z.div_mod_to_equations. lia.
Qed.

Lemma diff_at_most_nine rb :
  ringOK rb → diffLastWriteNextOutput rb ≤ RING_BUFFER_SAMPLES - BUFFER_LENGTH_SAMPLES.
Proof.
  intros Hr. pose proof (diff_onFrame rb Hr) as Hm. pose proof (diff_range rb) as Hd.
  revert Hm Hd. constants. Z.div_mod_to_equations. lia.
Qed.

Lemma prepareWrite_onFrame rb :
  ringOK rb → is_Some (endOfLastWrite rb) → prepareWrite rb = rb.
Proof.
  intros Hr [w Ew]. unfold prepareWrite. rewrite Ew.
  pose proof (diff_at_most_nine rb Hr).
  destruct (Z.ltb_spec (RING_BUFFER_SAMPLES - BUFFER_LENGTH_SAMPLES)
              (diffLastWriteNextOutput rb)); [lia|done].
Qed.

Lemma pending_admitFrame rb audioData :
  ringOK rb → cursorsInside rb → length audioData = FRAME →
  diffLastWriteNextOutput rb + 2 * BUFFER_LENGTH_SAMPLES ≤ RING_BUFFER_SAMPLES →
  pending (admitFrame audioData rb) = pending rb ++ [audioData].
Proof.
  intros Hr Hin Hd Hroom. unfold admitFrame.
  destruct (endOfLastWrite rb) as [w|] eqn:Ew.
  - rewrite prepareWrite_onFrame by (done || by eexists).
    by apply (pending_writeFrame rb w).
  - destruct Hin as (_ & _ & Hr0). rewrite Ew in Hr0.
    assert (pending rb = pending (prepareWrite rb)) as ->.
    { unfold pending, prepareWrite, diffLastWriteNextOutput. rewrite Ew. cbn.
      rewrite Hr0. by constants. }
    apply (pending_writeFrame _ 0); [| |done|].
    + destruct Hr as (Hl & Hron & _). unfold prepareWrite. rewrite Ew.
      unfold ringOK. cbn. auto using onFrame_0.
    + unfold prepareWrite. by rewrite Ew.
    + unfold prepareWrite, diffLastWriteNextOutput. rewrite Ew. cbn. rewrite Hr0.
      by constants.
Qed.

(** The mixer takes the oldest pending frame. *)
Lemma pending_mixSource rb :
  ringOK rb → contributes rb = true →
  pending rb = frameAt (buffer rb) (nextOutput rb) :: pending (mixSource rb).1.
Proof.
  intros Hr Hc. rewrite (mixSource_contributes rb Hc). cbn [fst].
  assert (BUFFER_LENGTH_SAMPLES ≤ diffLastWriteNextOutput rb) as Hfull.
  { revert Hc. unfold contributes, mixSource.
    destruct (endOfLastWrite rb); [|by rewrite bool_decide_eq_false_2 by apply is_Some_None].
    repeat case_match; try (by rewrite bool_decide_eq_false_2 by apply is_Some_None).
    intros _. lia. }
  destruct Hr as (Hl & Hron & Hw).
  unfold pending, diffLastWriteNextOutput in *.
  cbn [buffer nextOutput endOfLastWrite set_nextOutput set_started].
  destruct (endOfLastWrite rb) as [w|]; [|revert Hfull; constants; lia].
  set (r := nextOutput rb) in *. set (buf := buffer rb) in *.
  destruct (pending_position r w 0 Hron Hw) as (Hdm & _); [lia|].
  set (d := (w - r + RING_BUFFER_SAMPLES) mod RING_BUFFER_SAMPLES) in *.
  assert ((w - advance r + RING_BUFFER_SAMPLES) mod RING_BUFFER_SAMPLES
          = d - BUFFER_LENGTH_SAMPLES) as ->.
  { rewrite advance_mod by done. subst d. destruct Hron as [Hr _], Hw as [Hw _].
    revert Hfull Hr Hw. constants. Z.div_mod_to_equations. lia. }
  replace (Z.to_nat (d / BUFFER_LENGTH_SAMPLES))
    with (S (Z.to_nat ((d - BUFFER_LENGTH_SAMPLES) / BUFFER_LENGTH_SAMPLES)))
    by (revert Hdm Hfull; constants; Z.div_mod_to_equations; lia).
  cbn [seq fmap list_fmap]. f_equal.
  - f_equal. destruct Hron as [Hr _]. revert Hr. constants. Z.div_mod_to_equations. lia.
  - rewrite <- seq_shift, <- list_fmap_compose. apply list_fmap_ext. intros i k _. cbn.
    f_equal. rewrite advance_mod by done. destruct Hron as [Hr _]. revert Hr. constants.
    Z.div_mod_to_equations. lia.
Qed.

(** X1. The ring buffer is a queue of frames for the writer: a frame
    admitted while at most eight frames are pending is appended behind the
    pending frames, which stay as they are; the read cursor and [started]
    are not touched. *)
Theorem admitted_frame_is_queued rb audioData :
  ringOK rb → cursorsInside rb → length audioData = FRAME →
  diffLastWriteNextOutput rb + 2 * BUFFER_LENGTH_SAMPLES ≤ RING_BUFFER_SAMPLES →
  let rb' := admitFrame audioData rb in
  pending rb' = pending rb ++ [audioData]
  ∧ nextOutput rb' = nextOutput rb
  ∧ started rb' = started rb.
Proof.
  intros Hr Hin Hd Hroom rb'. split; [by apply pending_admitFrame|].
  subst rb'. unfold admitFrame, writeFrame.
  destruct (endOfLastWrite rb) as [w|] eqn:Ew.
  - rewrite prepareWrite_onFrame by (done || by eexists). by rewrite Ew.
  - unfold prepareWrite. rewrite Ew. done.
Qed.

Lemma admitted_frame_is_queued_witness :
  length (pending onePeerBuffer) = 3%nat
  ∧ let rb' := admitFrame (tone 7) onePeerBuffer in
    pending rb' = pending onePeerBuffer ++ [tone 7]
    ∧ nextOutput rb' = nextOutput onePeerBuffer
    ∧ started rb' = started onePeerBuffer.
Proof.
  split; [vm_compute; reflexivity|].
  apply (admitted_frame_is_queued onePeerBuffer (tone 7)).
  - apply (bool_decide_unpack _). vm_compute. exact I.
  - apply (bool_decide_unpack _). vm_compute. exact I.
  - vm_compute. reflexivity.
  - vm_compute. discriminate.
Defined.

(** X2. The mixer reads the queue from the front: a buffer that is folded
    into the master mix gives its oldest pending frame, and the frames
    behind it stay pending, in order. *)
Theorem mixer_reads_oldest_frame rb :
  ringOK rb → contributes rb = true →
  ∃ frame rest,
    pending rb = frame :: rest
    ∧ (mixSource rb).2 = Some frame
    ∧ pending (mixSource rb).1 = rest
    ∧ buffer (mixSource rb).1 = buffer rb
    ∧ endOfLastWrite (mixSource rb).1 = endOfLastWrite rb.
Proof.
  intros Hr Hc. exists (frameAt (buffer rb) (nextOutput rb)), (pending (mixSource rb).1).
  split; [by apply pending_mixSource|].
  by rewrite (mixSource_contributes rb Hc).
Qed.

Lemma mixer_reads_oldest_frame_witness :
  ∃ frame rest,
    pending onePeerBuffer = frame :: rest
    ∧ (mixSource onePeerBuffer).2 = Some frame
    ∧ pending (mixSource onePeerBuffer).1 = rest
    ∧ buffer (mixSource onePeerBuffer).1 = buffer onePeerBuffer
    ∧ endOfLastWrite (mixSource onePeerBuffer).1 = endOfLastWrite onePeerBuffer.
Proof.
  apply (mixer_reads_oldest_frame onePeerBuffer).
  - apply (bool_decide_unpack _). vm_compute. exact I.
  - vm_compute. reflexivity.
Defined.

(** X3. A full buffer reads as an empty one.  With nine frames pending
    (one frame short of the capacity) the guard of line 202 lets the
    admission through, the write cursor wraps onto the read cursor, and the
    backlog is 0: all ten frames are lost to the mixer, which holds the
    buffer back or finds it starved in the next cycle. *)
Theorem tenth_frame_empties_buffer rb audioData :
  ringOK rb → is_Some (endOfLastWrite rb) →
  diffLastWriteNextOutput rb = RING_BUFFER_SAMPLES - BUFFER_LENGTH_SAMPLES →
  let rb' := admitFrame audioData rb in
  length (pending rb) = 9%nat
  ∧ endOfLastWrite rb' = Some (nextOutput rb')
  ∧ nextOutput rb' = nextOutput rb
  ∧ diffLastWriteNextOutput rb' = 0
  ∧ pending rb' = []
  ∧ contributes rb' = false.
Proof.
  intros Hr [w Ew] Hd rb'.
  assert (length (pending rb) = 9%nat) as Hnine.
  { unfold pending. rewrite length_fmap, length_seq, Hd. by constants. }
  assert (rb' = set_endOfLastWrite (Some (nextOutput rb))
                  (set_buffer (memcpyFrame (buffer rb) w audioData) rb)) as Erb'.
  { subst rb'. unfold admitFrame. rewrite prepareWrite_onFrame by (done || by eexists).
    unfold writeFrame. rewrite Ew. do 2 f_equal.
    destruct Hr as (_ & Hron & Hw). rewrite Ew in Hw. rewrite advance_mod by done.
    revert Hd. unfold diffLastWriteNextOutput. rewrite Ew.
    destruct Hron as [Hron _], Hw as [Hw _]. revert Hron Hw. constants.
    Z.div_mod_to_equations. lia. }
  assert (diffLastWriteNextOutput rb' = 0) as Hzero.
  { rewrite Erb'. unfold diffLastWriteNextOutput. cbn.
    replace (nextOutput rb - nextOutput rb + RING_BUFFER_SAMPLES)
      with RING_BUFFER_SAMPLES by lia.
    apply Z.mod_same. by constants. }
  split_and!; try done.
  - by rewrite Erb'.
  - by rewrite Erb'.
  - unfold pending. by rewrite Hzero.
  - unfold contributes. apply bool_decide_eq_false_2. unfold mixSource.
    rewrite Hzero. rewrite Erb'. cbn [endOfLastWrite set_endOfLastWrite].
    repeat case_match; try apply is_Some_None.
    revert select (_ = false). intros H0%Z.ltb_ge. revert H0. constants. lia.
Qed.

Lemma tenth_frame_empties_buffer_witness :
  let rb' := admitFrame (tone 7) nineBuffer in
  length (pending nineBuffer) = 9%nat
  ∧ endOfLastWrite rb' = Some (nextOutput rb')
  ∧ nextOutput rb' = nextOutput nineBuffer
  ∧ diffLastWriteNextOutput rb' = 0
  ∧ pending rb' = []
  ∧ contributes rb' = false.
Proof.
  apply (tenth_frame_empties_buffer nineBuffer (tone 7)).
  - apply (bool_decide_unpack _). vm_compute. exact I.
  - vm_compute. eexists. reflexivity.
  - vm_compute. reflexivity.
Defined.

(** X4. On frame-aligned cursors the overflow guard of lines 202-207 never
    fires: the backlog is at most nine frames, never above [C - F], so an
    admission into a buffer that has been written to leaves the cursors and
    [started] as they are before the copy. *)
Theorem aligned_admission_never_resets rb :
  ringOK rb → is_Some (endOfLastWrite rb) →
  diffLastWriteNextOutput rb ≤ RING_BUFFER_SAMPLES - BUFFER_LENGTH_SAMPLES
  ∧ prepareWrite rb = rb.
Proof.
  intros Hr Hw. split; [by apply diff_at_most_nine|by apply prepareWrite_onFrame].
Qed.

Lemma aligned_admission_never_resets_witness :
  diffLastWriteNextOutput nineBuffer ≤ RING_BUFFER_SAMPLES - BUFFER_LENGTH_SAMPLES
  ∧ prepareWrite nineBuffer = nineBuffer.
Proof.
  apply (aligned_admission_never_resets nineBuffer).
  - apply (bool_decide_unpack _). vm_compute. exact I.
  - vm_compute. eexists. reflexivity.
Defined.

(** ** The packets and the master mix of a cycle *)

Lemma addFrame_swap masterMix : ∀ x y,
  addFrame (addFrame masterMix x) y = addFrame (addFrame masterMix y) x.
Proof.
  unfold addFrame. induction masterMix as [|m mm IH]; intros [|x xs] [|y ys]; cbn; try done.
  f_equal; [lia|apply IH].
Qed.

Lemma foldSource_addFrame sbs masterMix frame b :
  foldSource sbs (addFrame masterMix frame) b = addFrame (foldSource sbs masterMix b) frame.
Proof.
  unfold foldSource. destruct (sbs !! b) as [rb|]; [|done].
  destruct (mixSource rb).2; [|done]. apply addFrame_swap.
Qed.

Lemma foldl_addFrame sbs frame idx : ∀ masterMix,
  foldl (foldSource sbs) (addFrame masterMix frame) idx
  = addFrame (foldl (foldSource sbs) masterMix idx) frame.
Proof.
  induction idx as [|b idx IH]; intros mm; [done|]. cbn [foldl].
  by rewrite foldSource_addFrame, IH.
Qed.

Lemma filter_all {A} (P : A → Prop) `{∀ x, Decision (P x)} (l : list A) :
  Forall P l → filter P l = l.
Proof.
  induction 1 as [|x l Hx Hl IH]; [done|]. by rewrite filter_cons_True, IH.
Qed.

(** The master mix is the mix of the other buffers plus the frame of a
    contributing one. *)
Lemma foldl_extract sbs a frame idx : ∀ masterMix,
  NoDup idx → a ∈ idx →
  (∀ m, foldSource sbs m a = addFrame m frame) →
  foldl (foldSource sbs) masterMix idx
  = addFrame (foldl (foldSource sbs) masterMix (filter (λ j, j ≠ a) idx)) frame.
Proof.
  induction idx as [|j idx IH]; intros mm Hnd Hin Ha.
  - by apply elem_of_nil in Hin.
  - apply NoDup_cons in Hnd as [Hj Hnd]. cbn [foldl].
    destruct (decide (j = a)) as [->|Hne].
    + rewrite filter_cons_False by (by intros ?).
      rewrite Ha, foldl_addFrame. f_equal. f_equal.
      symmetry. apply filter_all. apply Forall_forall. intros x Hx ->. done.
    + rewrite filter_cons_True by done. cbn [foldl]. apply IH; [done| |done].
      apply elem_of_cons in Hin as [->|?]; done.
Qed.

Lemma length_foldSource_le sbs masterMix b :
  (length (foldSource sbs masterMix b) ≤ length masterMix)%nat.
Proof.
  unfold foldSource, addFrame. repeat case_match; try lia.
  rewrite length_zip_with. lia.
Qed.

Lemma length_foldl_le sbs idx : ∀ masterMix,
  (length (foldl (foldSource sbs) masterMix idx) ≤ length masterMix)%nat.
Proof.
  induction idx as [|b idx IH]; intros mm; cbn [foldl]; [lia|].
  etrans; [apply IH|apply length_foldSource_le].
Qed.

(** Subtracting a frame that was added gives back what was there. *)
Lemma mix_minus_own (others frame : list Z) :
  (length others ≤ length frame)%nat →
  zip_with (λ m p, clip (m - p)) (addFrame others frame) frame = clip <$> others.
Proof.
  unfold addFrame. revert frame.
  induction others as [|m others IH]; intros [|x frame] Hl; cbn in *; try done; try lia.
  f_equal; [f_equal; lia|apply IH; lia].
Qed.

Lemma afterMix_fields sbs a ag :
  address (afterMix sbs a ag) = address ag
  ∧ port (afterMix sbs a ag) = port ag
  ∧ active (afterMix sbs a ag) = active ag
  ∧ time (afterMix sbs a ag) = time ag
  ∧ bufferTransmitted (afterMix sbs a ag)
    = bufferTransmitted ag || from_option contributes false (sbs !! a).
Proof.
  unfold afterMix. destruct (sbs !! a) as [rb|]; cbn.
  - destruct (contributes rb); cbn; rewrite ?orb_true_r, ?orb_false_r; done.
  - by rewrite orb_false_r.
Qed.

(** The packets of a cycle: one for each entry in use that is inside the
    liveness window, composed from the master mix and, when the entry's flag
    is set after the first loop, the frame before the read cursor. *)
Lemma mixCycle_sent sendTime s s' masterMix sent :
  tablesOK s → mixCycle sendTime s = Some (s', masterMix, sent) →
  ∀ q, q ∈ sent ↔
    ∃ a ag, (a < numAgents s)%nat ∧ agents s !! a = Some ag ∧ live sendTime ag = true
      ∧ q = mkPacket a (address ag) (port ag)
              (clientMix masterMix
                 (if bufferTransmitted ag
                     || from_option contributes false (sourceBuffers s !! a)
                  then previousFrame <$> sourceBuffers s' !! a else None)).
Proof.
  intros Hok Hrun.
  destruct (mixCycle_run sendTime s Hok)
    as (s1 & mm1 & sent1 & Hrun1 & _ & _ & _ & _ & _ & Hsent).
  rewrite Hrun in Hrun1. injection Hrun1 as <- <- <-.
  intros q. rewrite Hsent, list_elem_of_omap. split.
  - intros (a & Ha%elem_of_seq & Hq).
    destruct (agents s !! a) as [ag|] eqn:Ea; [|done]. cbn [mbind option_bind] in Hq.
    unfold packetFor in Hq. rewrite live_afterMix in Hq.
    destruct (live sendTime ag) eqn:Hl; [|done]. injection Hq as <-.
    destruct (afterMix_fields (sourceBuffers s) a ag) as (-> & -> & _ & _ & ->).
    exists a, ag. split_and!; try done. lia.
  - intros (a & ag & Ha & Ea & Hl & ->). exists a. split; [apply elem_of_seq; lia|].
    rewrite Ea. cbn [mbind option_bind]. unfold packetFor. rewrite live_afterMix, Hl.
    by destruct (afterMix_fields (sourceBuffers s) a ag) as (-> & -> & _ & _ & ->).
Qed.

Lemma slots_of_omap {A} (g : nat → option A) (slotOf : A → nat) (P : nat → Prop)
    `{∀ a, Decision (P a)} (l : list nat) :
  (∀ a x, g a = Some x → slotOf x = a) → (∀ a, P a ↔ is_Some (g a)) →
  slotOf <$> omap g l = filter P l.
Proof.
  intros Hslot HP. induction l as [|a l IH]; [done|]. cbn [omap list_omap].
  destruct (g a) as [x|] eqn:Eg.
  - rewrite filter_cons_True by (apply HP; rewrite Eg; by eexists).
    cbn. by rewrite (Hslot a x Eg), IH.
  - rewrite filter_cons_False; [done|]. rewrite HP, Eg. apply is_Some_None.
Qed.

Lemma length_foldl_frames sbs idx : ∀ masterMix,
  Forall ringOK sbs → length masterMix = FRAME →
  length (foldl (foldSource sbs) masterMix idx) = FRAME.
Proof.
  induction idx as [|b idx IH]; intros mm Hr Hl; [done|]. cbn [foldl].
  apply IH; [done|]. unfold foldSource.
  destruct (sbs !! b) as [rb|] eqn:Eb; [|done].
  destruct (mixSource rb).2 as [frame|] eqn:Ef; [|done].
  assert (contributes rb = true) as Hc.
  { unfold contributes. rewrite Ef. by apply bool_decide_eq_true_2. }
  rewrite (mixSource_contributes rb Hc) in Ef. injection Ef as <-.
  pose proof (proj1 (Forall_lookup _ _) Hr b rb Eb) as (Hlen & Hron & _).
  apply onFrame_fits in Hron.
  unfold addFrame. rewrite length_zip_with, length_frameAt by lia. lia.
Qed.

Lemma length_previousFrame rb : ringOK rb → length (previousFrame rb) = FRAME.
Proof.
  intros (Hlen & Hron & _). unfold previousFrame, previousOffset.
  destruct (onFrame_frames _ Hron) as (q & Eq & Hq).
  destruct (Z.eqb_spec (nextOutput rb) 0); apply length_frameAt; constants; lia.
Qed.

(** X5. Mix-minus. A peer inside the liveness window whose buffer is
    folded into the master mix is sent a packet to its address and port, and
    every packet of the cycle for its slot is the clipped mix of the other
    buffers: the master mix is that mix plus the peer's own frame, and the
    peer's own samples cancel exactly before clipping. *)
Theorem contributor_hears_the_others sendTime s a ag rb :
  tablesOK s → (a < numAgents s)%nat →
  agents s !! a = Some ag → live sendTime ag = true →
  sourceBuffers s !! a = Some rb → ringOK rb → contributes rb = true →
  ∃ s' masterMix sent p,
    mixCycle sendTime s = Some (s', masterMix, sent)
    ∧ masterMix = addFrame (mixOfOthers (sourceBuffers s) a)
                           (frameAt (buffer rb) (nextOutput rb))
    ∧ p ∈ sent
    ∧ p = mkPacket a (address ag) (port ag) (clip <$> mixOfOthers (sourceBuffers s) a)
    ∧ (∀ q, q ∈ sent → slot q = a → q = p).
Proof.
  intros Hok Ha Ea Hl Eb Hr Hc.
  destruct (mixCycle_run sendTime s Hok)
    as (s' & mm & sent & Hrun & Hmm & Hsb & _).
  pose proof (mixCycle_sent _ _ _ _ _ Hok Hrun) as Hsent.
  pose proof (mixSource_contributes rb Hc) as Hmix.
  pose proof Hr as (Hlen & Hron & _). pose proof (onFrame_fits _ Hron) as Hfit.
  set (frame := frameAt (buffer rb) (nextOutput rb)) in *.
  assert (length frame = FRAME) as Hlf by (apply length_frameAt; lia).
  assert (mm = addFrame (mixOfOthers (sourceBuffers s) a) frame) as Emm.
  { rewrite Hmm. unfold mixOfOthers. apply foldl_extract.
    - apply NoDup_seq.
    - apply elem_of_seq. destruct Hok as (_ & _ & ? & _). lia.
    - intros m. unfold foldSource. by rewrite Eb, Hmix. }
  assert (clientMix mm
            (if bufferTransmitted ag || from_option contributes false (sourceBuffers s !! a)
             then previousFrame <$> sourceBuffers s' !! a else None)
          = clip <$> mixOfOthers (sourceBuffers s) a) as Epay.
  { rewrite Eb. cbn [from_option]. rewrite Hc, orb_true_r.
    rewrite Hsb, list_lookup_fmap, Eb. cbn [fmap option_fmap option_map]. rewrite Hmix.
    cbn [fst]. unfold previousFrame. rewrite previousOffset_read by done.
    cbn [buffer set_nextOutput set_started clientMix]. fold frame. rewrite Emm.
    apply mix_minus_own. rewrite Hlf. unfold mixOfOthers.
    etrans; [apply length_foldl_le|]. by rewrite length_replicate. }
  eexists s', mm, sent, _. split_and!; try done.
  - apply Hsent. exists a, ag. split_and!; try done. by rewrite Epay.
  - intros q (a' & ag' & _ & Ea' & _ & ->)%Hsent Hslot. cbn [slot] in Hslot. subst a'.
    rewrite Ea in Ea'. injection Ea' as <-. by rewrite Epay.
Qed.

Lemma contributor_hears_the_others_witness :
  mixOfOthers (sourceBuffers twoPeers) 0 = tone 30000
  ∧ ∃ s' masterMix sent p,
      mixCycle (mkTimeval 100 500) twoPeers = Some (s', masterMix, sent)
      ∧ masterMix = addFrame (mixOfOthers (sourceBuffers twoPeers) 0)
                             (frameAt (buffer onePeerBuffer) (nextOutput onePeerBuffer))
      ∧ p ∈ sent
      ∧ p = mkPacket 0 (address onePeerAgent) (port onePeerAgent)
              (clip <$> mixOfOthers (sourceBuffers twoPeers) 0)
      ∧ (∀ q, q ∈ sent → slot q = 0%nat → q = p).
Proof.
  split; [vm_compute; reflexivity|].
  apply (contributor_hears_the_others (mkTimeval 100 500) twoPeers 0 onePeerAgent
           onePeerBuffer).
  - apply (bool_decide_unpack _). vm_compute. exact I.
  - vm_compute. lia.
  - vm_compute. reflexivity.
  - vm_compute. reflexivity.
  - vm_compute. reflexivity.
  - apply (bool_decide_unpack _). vm_compute. exact I.
  - vm_compute. reflexivity.
Defined.

(** X6. A mix cycle sends one packet to each entry in use that is inside
    the liveness window, in table order, and to no other entry; each packet
    goes to the address and port of its entry, and with frame-aligned
    buffers each carries exactly one frame of samples. *)
Theorem packets_follow_the_table sendTime s :
  tablesOK s →
  ∃ s' masterMix sent,
    mixCycle sendTime s = Some (s', masterMix, sent)
    ∧ slot <$> sent = filter (liveAt sendTime s) (seq 0 (numAgents s))
    ∧ (∀ p, p ∈ sent →
         ∃ ag, agents s !! slot p = Some ag
               ∧ toAddress p = address ag ∧ toPort p = port ag)
    ∧ (Forall ringOK (sourceBuffers s) →
       length masterMix = FRAME ∧ ∀ p, p ∈ sent → length (payload p) = FRAME).
Proof.
  intros Hok.
  destruct (mixCycle_run sendTime s Hok)
    as (s' & mm & sent & Hrun & Hmm & Hsb & _ & _ & _ & Hsent).
  pose proof (mixCycle_sent _ _ _ _ _ Hok Hrun) as Hin.
  exists s', mm, sent. split_and!; try done.
  - rewrite Hsent. apply slots_of_omap.
    + intros a p. destruct (agents s !! a) as [ag|]; [|done]. cbn [mbind option_bind].
      unfold packetFor. destruct (live sendTime (afterMix _ a ag)); [|done].
      by intros [= <-].
    + intros a. unfold liveAt. destruct (agents s !! a) as [ag|]; cbn.
      * unfold packetFor. rewrite live_afterMix.
        destruct (live sendTime ag); split; try done; try (by eexists).
      * split; [done|by intros [? [=]]].
  - intros p (a & ag & _ & Ea & _ & ->)%Hin. by exists ag.
  - intros Hr.
    assert (length mm = FRAME) as Hlm.
    { rewrite Hmm. apply length_foldl_frames; [done|apply length_replicate]. }
    split; [done|].
    intros p (a & ag & _ & Ea & _ & ->)%Hin. cbn [payload].
    destruct (bufferTransmitted ag || from_option contributes false (sourceBuffers s !! a)).
    + rewrite Hsb, list_lookup_fmap.
      destruct (sourceBuffers s !! a) as [rb|] eqn:Eb; cbn.
      * rewrite length_zip_with, Hlm, length_previousFrame; [lia|].
        apply ringOK_mixSource. by eapply (proj1 (Forall_lookup _ _) Hr a).
      * by rewrite length_fmap.
    + cbn. by rewrite length_fmap.
Qed.

Lemma packets_follow_the_table_witness :
  filter (liveAt (mkTimeval 100 500) twoPeers) (seq 0 (numAgents twoPeers)) = [0; 1]%nat
  ∧ ∃ s' masterMix sent,
      mixCycle (mkTimeval 100 500) twoPeers = Some (s', masterMix, sent)
      ∧ slot <$> sent
        = filter (liveAt (mkTimeval 100 500) twoPeers) (seq 0 (numAgents twoPeers))
      ∧ (∀ p, p ∈ sent →
           ∃ ag, agents twoPeers !! slot p = Some ag
                 ∧ toAddress p = address ag ∧ toPort p = port ag)
      ∧ (Forall ringOK (sourceBuffers twoPeers) →
         length masterMix = FRAME ∧ ∀ p, p ∈ sent → length (payload p) = FRAME).
Proof.
  split; [vm_compute; reflexivity|].
  apply (packets_follow_the_table (mkTimeval 100 500) twoPeers).
  apply (bool_decide_unpack _). vm_compute. exact I.
Defined.

Lemma clip_zero_frame n : clip <$> replicate n 0 = replicate n 0.
Proof. induction n as [|n IH]; [done|]. cbn. by rewrite IH. Qed.

(** X7. The master mix is rebuilt from zero in every cycle: when no buffer
    passes the jitter policy it is all zero, no read cursor moves, and every
    peer sent to whose [bufferTransmitted] flag is clear receives a frame of
    silence. *)
Theorem idle_cycle_is_silent sendTime s :
  tablesOK s →
  (∀ b rb, sourceBuffers s !! b = Some rb → contributes rb = false) →
  ∃ s' masterMix sent,
    mixCycle sendTime s = Some (s', masterMix, sent)
    ∧ masterMix = replicate FRAME 0
    ∧ nextOutput <$> sourceBuffers s' = nextOutput <$> sourceBuffers s
    ∧ (∀ p ag, p ∈ sent → agents s !! slot p = Some ag → bufferTransmitted ag = false →
         payload p = replicate FRAME 0).
Proof.
  intros Hok Hnone.
  destruct (mixCycle_run sendTime s Hok)
    as (s' & mm & sent & Hrun & Hmm & Hsb & _).
  pose proof (mixCycle_sent _ _ _ _ _ Hok Hrun) as Hin.
  assert (mm = replicate FRAME 0) as Emm.
  { rewrite Hmm. generalize (replicate FRAME 0). generalize (seq 0 MAX_SOURCE_BUFFERS).
    intros idx. induction idx as [|b idx IH]; intros m; [done|]. cbn [foldl].
    rewrite IH. unfold foldSource. destruct (sourceBuffers s !! b) as [rb|] eqn:Eb; [|done].
    by rewrite (mixSource_silent rb) by (by eapply Hnone). }
  exists s', mm, sent. split_and!; try done.
  - rewrite Hsb, <- list_fmap_compose. apply list_fmap_ext. intros i rb Ei. cbn.
    pose proof (mixSource_silent rb (Hnone i rb Ei)) as Hs. revert Hs.
    unfold mixSource, readFrame. repeat case_match; cbn; done.
  - intros p ag (a & ag' & _ & Ea & _ & ->)%Hin. cbn [slot payload]. rewrite Ea.
    intros [= <-] Hflag. rewrite Hflag. cbn [orb].
    destruct (sourceBuffers s !! a) as [rb|] eqn:Eb; cbn [from_option].
    + rewrite (Hnone a rb Eb). cbn [clientMix]. by rewrite Emm, clip_zero_frame.
    + cbn [clientMix]. by rewrite Emm, clip_zero_frame.
Qed.

Lemma idle_cycle_is_silent_witness :
  mixedAndSent (mkTimeval 100 500) quietPeer = Some (replicate FRAME 0, [0%nat])
  ∧ ∃ s' masterMix sent,
      mixCycle (mkTimeval 100 500) quietPeer = Some (s', masterMix, sent)
      ∧ masterMix = replicate FRAME 0
      ∧ nextOutput <$> sourceBuffers s' = nextOutput <$> sourceBuffers quietPeer
      ∧ (∀ p ag, p ∈ sent → agents quietPeer !! slot p = Some ag →
           bufferTransmitted ag = false → payload p = replicate FRAME 0).
Proof.
  split; [vm_compute; reflexivity|].
  apply (idle_cycle_is_silent (mkTimeval 100 500) quietPeer).
  - apply (bool_decide_unpack _). vm_compute. exact I.
  - intros b rb Eb.
    assert (Forall (λ rb, contributes rb = false) (sourceBuffers quietPeer)) as Hall
      by (apply (bool_decide_unpack _); vm_compute; exact I).
    by eapply (proj1 (Forall_lookup _ _) Hall b).
Defined.

(** X8. A mix cycle writes nothing of an agent entry but
    [bufferTransmitted].  The flag is set when the agent's buffer is folded
    into the master mix and cleared only by the send to the agent: an agent
    outside the liveness window keeps a set flag into later cycles. *)
Theorem flag_cleared_only_by_send sendTime s a ag :
  tablesOK s → agents s !! a = Some ag →
  ∃ s' masterMix sent ag',
    mixCycle sendTime s = Some (s', masterMix, sent)
    ∧ numAgents s' = numAgents s
    ∧ agents s' !! a = Some ag'
    ∧ address ag' = address ag ∧ port ag' = port ag
    ∧ active ag' = active ag ∧ time ag' = time ag
    ∧ bufferTransmitted ag'
      = (bufferTransmitted ag || from_option contributes false (sourceBuffers s !! a))
        && negb (bool_decide (a < numAgents s)%nat && live sendTime ag).
Proof.
  intros Hok Ea.
  destruct (mixCycle_run sendTime s Hok)
    as (s' & mm & sent & Hrun & _ & _ & Hn & _ & Hag & _).
  destruct (afterMix_fields (sourceBuffers s) a ag) as (Had & Hpo & Hac & Hti & Hbt).
  eexists s', mm, sent, _. split; [done|]. split; [done|].
  split; [by rewrite Hag, Ea|].
  case_decide as Ha.
  - rewrite bool_decide_eq_true_2 by done. unfold afterSend. rewrite live_afterMix, Hbt.
    destruct (live sendTime ag); cbn [andb negb].
    + destruct (bufferTransmitted ag || _); cbn; by rewrite ?Had, ?Hpo, ?Hac, ?Hti, ?Hbt.
    + by rewrite andb_true_r.
  - rewrite bool_decide_eq_false_2 by done. cbn [andb negb]. by rewrite andb_true_r.
Qed.

Lemma flag_cleared_only_by_send_witness :
  ∃ s' masterMix sent ag',
    mixCycle stalePeerTime onePeer = Some (s', masterMix, sent)
    ∧ numAgents s' = numAgents onePeer
    ∧ agents s' !! 0%nat = Some ag'
    ∧ address ag' = address onePeerAgent ∧ port ag' = port onePeerAgent
    ∧ active ag' = active onePeerAgent ∧ time ag' = time onePeerAgent
    ∧ bufferTransmitted ag'
      = (bufferTransmitted onePeerAgent
         || from_option contributes false (sourceBuffers onePeer !! 0%nat))
        && negb (bool_decide (0 < numAgents onePeer)%nat && live stalePeerTime onePeerAgent).
Proof.
  apply (flag_cleared_only_by_send stalePeerTime onePeer 0 onePeerAgent).
  - apply (bool_decide_unpack _). vm_compute. exact I.
  - vm_compute. reflexivity.
Defined.

(** X9. With 16-bit samples in the source buffers, every cell of the
    master mix of a cycle stays within [20 * 32768] in absolute value: the
    sums of lines 102-104 stay inside a 32-bit [long]. *)
Theorem master_mix_fits_long sendTime s :
  tablesOK s → Forall (λ rb, Forall int16 (buffer rb)) (sourceBuffers s) →
  ∃ s' masterMix sent,
    mixCycle sendTime s = Some (s', masterMix, sent)
    ∧ Forall (λ m, - 655360 ≤ m ≤ 655360) masterMix
    ∧ Forall (λ m, - 2 ^ 31 ≤ m < 2 ^ 31) masterMix.
Proof.
  intros Hok Hint.
  destruct (mixCycle_run sendTime s Hok) as (s' & mm & sent & Hrun & Hmm & _).
  exists s', mm, sent. split; [done|].
  assert (Forall (λ m, - 655360 ≤ m ≤ 655360) mm) as Hb.
  { rewrite Hmm.
    eapply Forall_impl;
      [apply (masterMix_bound (sourceBuffers s) (seq 0 MAX_SOURCE_BUFFERS) 0); [done|]|].
    - apply Forall_replicate. lia.
    - cbn beta. rewrite length_seq. intros m. destruct MAX_values as [-> _]. lia. }
  split; [done|]. eapply Forall_impl; [done|]. cbn beta. intros m. lia.
Qed.

Lemma master_mix_fits_long_witness :
  ∃ s' masterMix sent,
    mixCycle (mkTimeval 100 500) twoPeers = Some (s', masterMix, sent)
    ∧ Forall (λ m, - 655360 ≤ m ≤ 655360) masterMix
    ∧ Forall (λ m, - 2 ^ 31 ≤ m < 2 ^ 31) masterMix.
Proof.
  apply (master_mix_fits_long (mkTimeval 100 500) twoPeers).
  - apply (bool_decide_unpack _). vm_compute. exact I.
  - apply (bool_decide_unpack _). vm_compute. exact I.
Defined.

(** ** The states the program reaches *)

Lemma known_identities s addr prt :
  known s addr prt ↔ (Some addr, prt) ∈ identities s.
Proof.
  unfold known, identities, hasIdentity. rewrite list_elem_of_fmap. split.
  - intros (i & ag & Hi & Ea & Had & Hpo). exists ag. split; [by rewrite Had, Hpo|].
    apply elem_of_take. eauto.
  - intros (ag & [= Had Hpo] & (i & Ea & Hi)%elem_of_take). exists i, ag. eauto.
Qed.

(** An admission adds the sender to the identities of the table when it is
    not among them, and leaves them as they are otherwise. *)
Lemma identities_addAgent now addr prt audioData s s' v :
  addAgent now addr prt audioData s = Some (s', v) →
  identities s' = firstSeen (identities s) (Some addr, prt).
Proof.
  intros (i & ag & rb & Ea & Eb & Hcase & -> & _)%addAgent_inv.
  unfold firstSeen.
  destruct Hcase as [[-> Hno]|Hfirst].
  - rewrite decide_False by (by rewrite <- known_identities).
    unfold identities. cbn [agents numAgents].
    rewrite bool_decide_eq_true_2 by done. cbn [orb]. unfold refreshed.
    rewrite (take_S_r _ _ (mkAgent (Some addr) prt true now false))
      by (apply list_lookup_insert_eq; by eapply lookup_lt_Some).
    rewrite take_insert_ge by lia. by rewrite fmap_app.
  - pose proof Hfirst as (Hi & _ & [Had Hpo] & _).
    rewrite decide_True.
    2: { apply known_identities. exists i, ag. by destruct Hfirst as (? & ? & ? & _). }
    unfold identities. cbn [agents numAgents].
    rewrite bool_decide_eq_false_2 by lia.
    rewrite take_insert_lt by done. rewrite list_fmap_insert.
    apply list_insert_id. rewrite list_lookup_fmap, lookup_take_lt, Ea by done. cbn.
    unfold refreshed. destruct (negb (active ag)); cbn; by rewrite ?Had, ?Hpo.
Qed.

Lemma afterSend_fields sendTime ag :
  address (afterSend sendTime ag) = address ag
  ∧ port (afterSend sendTime ag) = port ag
  ∧ active (afterSend sendTime ag) = active ag
  ∧ time (afterSend sendTime ag) = time ag.
Proof. unfold afterSend. by case_match. Qed.

Lemma identities_mixCycle sendTime s s' masterMix sent :
  tablesOK s → mixCycle sendTime s = Some (s', masterMix, sent) →
  identities s' = identities s.
Proof.
  intros Hok Hrun.
  destruct (mixCycle_run sendTime s Hok)
    as (s1 & mm1 & sent1 & Hrun1 & _ & _ & Hn & _ & Hag & _).
  rewrite Hrun in Hrun1. injection Hrun1 as <- <- <-.
  unfold identities. rewrite Hn. apply list_eq. intros j.
  rewrite !list_lookup_fmap, !lookup_take. case_decide; [|done].
  rewrite Hag. destruct (agents s !! j) as [ag|]; [|done]. cbn.
  destruct (afterMix_fields (sourceBuffers s) j ag) as (Had & Hpo & _).
  destruct (afterSend_fields sendTime (afterMix (sourceBuffers s) j ag)) as (Had' & Hpo' & _).
  case_decide; by rewrite ?Had', ?Hpo', Had, Hpo.
Qed.

Lemma allActive_addAgent now addr prt audioData s s' v :
  allActive s → addAgent now addr prt audioData s = Some (s', v) → allActive s'.
Proof.
  intros Hact (i & ag & rb & Ea & Eb & Hcase & -> & _)%addAgent_inv.
  unfold allActive in *. cbn [agents numAgents].
  assert (active (refreshed now addr prt (bool_decide (i = numAgents s) || negb (active ag)) ag)
          = true) as Hnew
    by (unfold refreshed; by destruct (bool_decide (i = numAgents s) || negb (active ag))).
  destruct Hcase as [[-> Hno]|(Hi & _)].
  - rewrite bool_decide_eq_true_2 by done.
    erewrite take_S_r by (apply list_lookup_insert_eq; by eapply lookup_lt_Some).
    rewrite take_insert_ge by lia. apply Forall_app. split; [done|].
    apply Forall_singleton. by rewrite bool_decide_eq_true_2 in Hnew.
  - rewrite take_insert_lt by (case_bool_decide; lia).
    rewrite (bool_decide_eq_false_2 (i = numAgents s)) by lia.
    apply Forall_insert; [done|].
    by rewrite (bool_decide_eq_false_2 (i = numAgents s)) in Hnew by lia.
Qed.

Lemma allActive_mixCycle sendTime s s' masterMix sent :
  tablesOK s → allActive s → mixCycle sendTime s = Some (s', masterMix, sent) →
  allActive s'.
Proof.
  intros Hok Hact Hrun.
  destruct (mixCycle_run sendTime s Hok)
    as (s1 & mm1 & sent1 & Hrun1 & _ & _ & Hn & _ & Hag & _).
  rewrite Hrun in Hrun1. injection Hrun1 as <- <- <-.
  unfold allActive in *. rewrite Hn. apply Forall_lookup. intros j ag'.
  rewrite lookup_take. case_decide as Hj; [|done]. rewrite Hag.
  destruct (agents s !! j) as [ag|] eqn:Ea; [|done]. cbn. intros [= <-].
  assert (active ag = true) as Ha.
  { eapply (proj1 (Forall_lookup _ _) Hact j). by rewrite lookup_take_lt. }
  destruct (afterMix_fields (sourceBuffers s) j ag) as (_ & _ & Hac & _).
  destruct (afterSend_fields sendTime (afterMix (sourceBuffers s) j ag)) as (_ & _ & Hac' & _).
  case_decide; by rewrite ?Hac', Hac.
Qed.

Lemma cursorsInside_admitFrame audioData rb :
  length audioData = FRAME → ringOK rb → cursorsInside (admitFrame audioData rb).
Proof.
  intros Hd Hr. pose proof (ringOK_admitFrame audioData rb Hd Hr) as Hr'.
  apply ringOK_cursorsInside; [done|].
  unfold admitFrame, writeFrame, prepareWrite.
  destruct (endOfLastWrite rb) eqn:E; repeat case_match; cbn in *; congruence.
Qed.

Lemma cursorsInside_mixSource rb :
  ringOK rb → cursorsInside rb → cursorsInside (mixSource rb).1.
Proof.
  intros Hr Hin. apply ringOK_cursorsInside; [by apply ringOK_mixSource|].
  destruct Hin as (_ & _ & Hn). revert Hn.
  unfold mixSource, readFrame. destruct (endOfLastWrite rb) eqn:E; [|done].
  repeat case_match; cbn; congruence.
Qed.

Lemma sound_addAgent now addr prt audioData s s' v :
  length audioData = FRAME → sound s →
  addAgent now addr prt audioData s = Some (s', v) → sound s'.
Proof.
  intros Hd (Hok & Hact & Hr) Hrun. split_and!.
  - by eapply tablesOK_addAgent.
  - by eapply allActive_addAgent.
  - apply addAgent_inv in Hrun as (i & ag & rb & Ea & Eb & _ & -> & _).
    cbn [sourceBuffers]. apply Forall_insert; [done|].
    destruct (proj1 (Forall_lookup _ _) Hr i rb Eb) as [Hrb _].
    split; [by apply ringOK_admitFrame|by apply cursorsInside_admitFrame].
Qed.

Lemma sound_mixCycle sendTime s s' masterMix sent :
  sound s → mixCycle sendTime s = Some (s', masterMix, sent) → sound s'.
Proof.
  intros (Hok & Hact & Hr) Hrun. split_and!.
  - by eapply tablesOK_mixCycle.
  - by eapply allActive_mixCycle.
  - destruct (mixCycle_run sendTime s Hok) as (s1 & mm1 & sent1 & Hrun1 & _ & Hsb & _).
    rewrite Hrun in Hrun1. injection Hrun1 as <- <- <-.
    rewrite Hsb. apply Forall_fmap. eapply Forall_impl; [done|].
    intros rb [? ?]. cbn. split; [by apply ringOK_mixSource|by apply cursorsInside_mixSource].
Qed.

Lemma sound_initial : sound initialMixer.
Proof. apply (bool_decide_unpack _). vm_compute. exact I. Qed.

(** With every entry in use active, addAgent reports an agent as new
    exactly when its identity is not in the table. *)
Lemma is_new_addAgent now addr prt audioData s s' v :
  allActive s → addAgent now addr prt audioData s = Some (s', v) →
  (v = 1 ∧ numAgents s' = S (numAgents s) ∧ ¬ known s addr prt)
  ∨ (v = 0 ∧ numAgents s' = numAgents s ∧ known s addr prt).
Proof.
  intros Hact (i & ag & rb & Ea & Eb & Hcase & -> & ->)%addAgent_inv.
  cbn [numAgents]. destruct Hcase as [[-> Hno]|(Hi & _ & Hid & _)].
  - left. by rewrite bool_decide_eq_true_2.
  - right. rewrite bool_decide_eq_false_2 by lia.
    assert (active ag = true) as ->.
    { eapply (proj1 (Forall_lookup _ _) Hact i). by rewrite lookup_take_lt. }
    split_and!; try done. by exists i, ag.
Qed.

Lemma NoDup_firstSeen seen id : NoDup seen → NoDup (firstSeen seen id).
Proof.
  intros Hnd. unfold firstSeen. case_decide as Hin; [done|].
  apply NoDup_app. split_and!; [done| |apply NoDup_singleton].
  intros x Hx ->%list_elem_of_singleton. done.
Qed.

Lemma NoDup_foldl_firstSeen ids : ∀ seen,
  NoDup seen → NoDup (foldl firstSeen seen ids).
Proof.
  induction ids as [|id ids IH]; intros seen Hnd; [done|]. cbn.
  by apply IH, NoDup_firstSeen.
Qed.

(** A run from a sound state: the state stays sound, the table comes to
    hold the senders in order of first appearance, and main reports exactly
    the identities that joined the table. *)
Lemma run_sound events : ∀ s s' added,
  sound s → wholeFrames events → run events s = Some (s', added) →
  sound s'
  ∧ identities s' = foldl firstSeen (identities s) (senders events)
  ∧ identities s' = identities s ++ (asIdentity <$> added).
Proof.
  induction events as [|ev events IH]; intros s s' added Hs Hw Hrun.
  - injection Hrun as <- <-. cbn. by rewrite app_nil_r.
  - apply Forall_cons in Hw as [Hd Hw]. destruct ev as [d| |sendTime]; cbn [run] in Hrun.
    + destruct (addAgent _ _ _ _ s) as [[s1 v]|] eqn:Hadd; [|done].
      cbn [mbind option_bind] in Hrun.
      destruct (run events s1) as [[s2 added']|] eqn:Hrest; [|done].
      cbn [mbind option_bind] in Hrun. injection Hrun as <- <-.
      pose proof (sound_addAgent _ _ _ _ _ _ _ Hd Hs Hadd) as Hs1.
      destruct (IH s1 s2 added' Hs1 Hw Hrest) as (Hs2 & Hids & Happ).
      pose proof (identities_addAgent _ _ _ _ _ _ _ Hadd) as Hstep.
      split; [done|]. split.
      * cbn. by rewrite <- Hstep.
      * destruct Hs as (_ & Hact & _).
        rewrite Happ, Hstep. unfold firstSeen.
        destruct (is_new_addAgent _ _ _ _ _ _ _ Hact Hadd)
          as [(-> & _ & Hno)|(-> & _ & Hyes)].
        -- rewrite decide_False by (by rewrite <- known_identities).
           rewrite bool_decide_eq_true_2 by done. cbn. by rewrite <- app_assoc.
        -- rewrite decide_True by (by rewrite <- known_identities).
           by rewrite bool_decide_eq_false_2 by (intros ?; done).
    + by apply IH.
    + destruct (mixCycle sendTime s) as [[[s1 mm] sent]|] eqn:Hmix; [|done].
      cbn [mbind option_bind] in Hrun.
      pose proof (sound_mixCycle _ _ _ _ _ Hs Hmix) as Hs1.
      destruct (IH s1 s' added Hs1 Hw Hrun) as (Hs2 & Hids & Happ).
      destruct Hs as (Hok & _).
      rewrite (identities_mixCycle _ _ _ _ _ Hok Hmix) in Hids, Happ. done.
Qed.

(** X10. Every state the program reaches from its start by whole addAgent
    calls (one frame per packet) and whole mix cycles is sound: the tables
    keep their lengths, at most [MAX_SOURCE_BUFFERS] entries are in use, all
    of them active and with an address, and every ring buffer has its cursors
    on frame boundaries inside the storage, so that every backlog is a whole
    number of frames, nine at most. *)
Theorem reachable_states_are_sound events s added :
  wholeFrames events → run events initialMixer = Some (s, added) →
  sound s
  ∧ (numAgents s ≤ MAX_SOURCE_BUFFERS)%nat
  ∧ ∀ b rb, sourceBuffers s !! b = Some rb →
      diffLastWriteNextOutput rb mod BUFFER_LENGTH_SAMPLES = 0
      ∧ 0 ≤ diffLastWriteNextOutput rb ≤ RING_BUFFER_SAMPLES - BUFFER_LENGTH_SAMPLES.
Proof.
  intros Hw Hrun.
  destruct (run_sound events initialMixer s added sound_initial Hw Hrun) as (Hs & _).
  split; [done|]. pose proof Hs as ((_ & _ & Hn & _) & _ & Hr). split; [done|].
  intros b rb Eb. destruct (proj1 (Forall_lookup _ _) Hr b rb Eb) as [Hrb _].
  split; [by apply diff_onFrame|]. split; [apply diff_range|by apply diff_at_most_nine].
Qed.

Lemma reachable_states_are_sound_witness :
  sound sampleState
  ∧ (numAgents sampleState ≤ MAX_SOURCE_BUFFERS)%nat
  ∧ ∀ b rb, sourceBuffers sampleState !! b = Some rb →
      diffLastWriteNextOutput rb mod BUFFER_LENGTH_SAMPLES = 0
      ∧ 0 ≤ diffLastWriteNextOutput rb ≤ RING_BUFFER_SAMPLES - BUFFER_LENGTH_SAMPLES.
Proof.
  apply (reachable_states_are_sound sampleEvents sampleState sampleAdded).
  - apply (bool_decide_unpack _). vm_compute. exact I.
  - vm_compute. reflexivity.
Defined.

(** X11. The table lists the distinct senders in the order in which they
    first sent a packet: identity is address and port together, a sender
    already listed is never listed again, [numAgents] is the number of
    distinct senders, and main reports as added exactly these identities, in
    that order. *)
Theorem table_lists_senders_in_order events s added :
  wholeFrames events → run events initialMixer = Some (s, added) →
  identities s = foldl firstSeen [] (senders events)
  ∧ asIdentity <$> added = identities s
  ∧ NoDup (identities s)
  ∧ numAgents s = length (identities s).
Proof.
  intros Hw Hrun.
  destruct (run_sound events initialMixer s added sound_initial Hw Hrun)
    as (Hs & Hids & Happ).
  change (identities initialMixer) with (@nil (option string * Z)) in *.
  split; [done|]. split; [done|]. split.
  - rewrite Hids. apply NoDup_foldl_firstSeen, NoDup_nil_2.
  - destruct Hs as ((Hla & _ & Hn & _) & _). unfold identities.
    rewrite length_fmap, length_take_le; [done|].
    destruct MAX_values as [E1 E2]. lia.
Qed.

Lemma table_lists_senders_in_order_witness :
  sampleAdded = [("10.0.0.1", 5000); ("10.0.0.2", 5000)]
  ∧ identities sampleState = foldl firstSeen [] (senders sampleEvents)
  ∧ asIdentity <$> sampleAdded = identities sampleState
  ∧ NoDup (identities sampleState)
  ∧ numAgents sampleState = length (identities sampleState).
Proof.
  split; [vm_compute; reflexivity|].
  apply (table_lists_senders_in_order sampleEvents sampleState sampleAdded).
  - apply (bool_decide_unpack _). vm_compute. exact I.
  - vm_compute. reflexivity.
Defined.

(** X12. No code clears [active], so in a sound state the re-admission
    branch of line 186 ([agents[i].active == false]) is never taken:
    addAgent returns 1 exactly when the sender is not in the table and the
    table grows by one, and 0 exactly when the sender is in the table, whose
    size then stays. *)
Theorem is_new_iff_table_grows now addr prt audioData s s' v :
  sound s → addAgent now addr prt audioData s = Some (s', v) →
  (v = 1 ∨ v = 0)
  ∧ (v = 1 ↔ numAgents s' = S (numAgents s))
  ∧ (v = 1 ↔ ¬ known s addr prt)
  ∧ (v = 0 ↔ numAgents s' = numAgents s)
  ∧ known s' addr prt.
Proof.
  intros (Hok & Hact & _) Hrun.
  assert (known s' addr prt) as Hk.
  { apply known_identities. rewrite (identities_addAgent _ _ _ _ _ _ _ Hrun).
    unfold firstSeen. case_decide; [done|]. apply elem_of_app. right. by left. }
  destruct (is_new_addAgent _ _ _ _ _ _ _ Hact Hrun) as [(-> & Hn & Hno)|(-> & Hn & Hyes)].
  - split_and!; try done; auto; split; intros; try done; lia.
  - split_and!; try done; auto; split; intros; try done; lia.
Qed.

Lemma is_new_iff_table_grows_witness :
  snd <$> addAgent (mkTimeval 101 0) "10.0.0.1" 5001 (tone 5) onePeer = Some 1
  ∧ ∀ s' v,
      addAgent (mkTimeval 101 0) "10.0.0.1" 5001 (tone 5) onePeer = Some (s', v) →
      (v = 1 ∨ v = 0)
      ∧ (v = 1 ↔ numAgents s' = S (numAgents onePeer))
      ∧ (v = 1 ↔ ¬ known onePeer "10.0.0.1" 5001)
      ∧ (v = 0 ↔ numAgents s' = numAgents onePeer)
      ∧ known s' "10.0.0.1" 5001.
Proof.
  split; [vm_compute; reflexivity|].
  intros s' v.
  apply (is_new_iff_table_grows (mkTimeval 101 0) "10.0.0.1" 5001 (tone 5) onePeer s' v).
  apply (bool_decide_unpack _). vm_compute. exact I.
Defined.



(** X14. Two packets in a row from one sender take one table entry: the
    second admission returns 0 whatever the first returned, leaves
    [numAgents] as the first left it, and its frame goes into the same ring
    buffer, behind the frame of the first. *)
Theorem second_admission_is_not_new now1 now2 addr prt data1 data2 s s1 v1 :
  tablesOK s → addAgent now1 addr prt data1 s = Some (s1, v1) →
  ∃ s2 i rb,
    addAgent now2 addr prt data2 s1 = Some (s2, 0)
    ∧ numAgents s2 = numAgents s1
    ∧ sourceBuffers s !! i = Some rb
    ∧ sourceBuffers s2 !! i = Some (admitFrame data2 (admitFrame data1 rb)).
Proof.
  intros Hok Hrun. pose proof (tablesOK_addAgent _ _ _ _ _ _ _ Hok Hrun) as Hok1.
  pose proof Hrun as (i & ag & rb & Ea & Eb & Hcase & Es1 & _)%addAgent_inv.
  set (ag1 := refreshed now1 addr prt (bool_decide (i = numAgents s) || negb (active ag)) ag)
    in *.
  assert (agents s1 !! i = Some ag1) as Ea1.
  { subst s1. cbn. apply list_lookup_insert_eq. by eapply lookup_lt_Some. }
  assert (sourceBuffers s1 !! i = Some (admitFrame data1 rb)) as Eb1.
  { subst s1. cbn. apply list_lookup_insert_eq. by eapply lookup_lt_Some. }
  assert (active ag1 = true ∧ hasIdentity addr prt ag1) as [Hact1 Hid1].
  { subst ag1. unfold refreshed, hasIdentity.
    destruct Hcase as [[-> _]|(_ & _ & [Had Hpo] & _)].
    - by rewrite bool_decide_eq_true_2.
    - by destruct (bool_decide (i = numAgents s) || negb (active ag)). }
  assert (firstWith s1 addr prt i ag1) as Hfirst.
  { split_and!; try done.
    - subst s1. cbn. destruct Hcase as [[-> _]|(Hi & _)]; case_bool_decide; lia.
    - intros j ag' Hj Ej. subst s1. cbn in Ej.
      rewrite list_lookup_insert_ne in Ej by lia.
      destruct Hcase as [[-> Hno]|(_ & _ & _ & Hbefore)].
      + intros Hid. apply Hno. by exists j, ag'.
      + by apply (Hbefore j). }
  pose proof (search_known _ _ _ _ _ Hok1 Hfirst) as Hs.
  rewrite (addAgent_at now2 addr prt data2 s1 i ag1 (admitFrame data1 rb) Hs Ea1 Eb1).
  destruct Hfirst as (Hi1 & _).
  rewrite bool_decide_eq_false_2 by lia. rewrite Hact1. cbn [orb negb].
  eexists _, i, rb. split; [reflexivity|]. cbn [numAgents sourceBuffers].
  split_and!; try done.
  apply list_lookup_insert_eq. by eapply lookup_lt_Some.
Qed.

Lemma second_admission_is_not_new_witness :
  ∃ s1 s2 i rb,
    addAgent (mkTimeval 101 0) "10.0.0.2" 6000 (tone 5) onePeer = Some (s1, 1)
    ∧ addAgent (mkTimeval 101 9) "10.0.0.2" 6000 (tone 6) s1 = Some (s2, 0)
    ∧ numAgents s2 = numAgents s1
    ∧ sourceBuffers onePeer !! i = Some rb
    ∧ sourceBuffers s2 !! i = Some (admitFrame (tone 6) (admitFrame (tone 5) rb)).
Proof.
  destruct (addAgent (mkTimeval 101 0) "10.0.0.2" 6000 (tone 5) onePeer)
    as [[s1 v1]|] eqn:Hrun; [|by vm_compute in Hrun].
  assert (v1 = 1) as ->.
  { assert (snd <$> addAgent (mkTimeval 101 0) "10.0.0.2" 6000 (tone 5) onePeer = Some 1)
      as Hv by (vm_compute; reflexivity).
    rewrite Hrun in Hv. by injection Hv. }
  assert (tablesOK onePeer) as Hok by (apply (bool_decide_unpack _); vm_compute; exact I).
  destruct (second_admission_is_not_new (mkTimeval 101 0) (mkTimeval 101 9)
              "10.0.0.2" 6000 (tone 5) (tone 6) onePeer s1 1 Hok Hrun)
    as (s2 & i & rb & H).
  by exists s1, s2, i, rb.
Defined.

(** ** Playback over several cycles *)

Lemma length_pending rb :
  length (pending rb) = Z.to_nat (diffLastWriteNextOutput rb / BUFFER_LENGTH_SAMPLES).
Proof. unfold pending. by rewrite length_fmap, length_seq. Qed.

Lemma contributes_started rb :
  is_Some (endOfLastWrite rb) → started rb = true →
  contributes rb = bool_decide (BUFFER_LENGTH_SAMPLES ≤ diffLastWriteNextOutput rb).
Proof.
  intros [w E] Hs. unfold contributes, mixSource. rewrite E, Hs. cbn [negb andb].
  destruct (Z.ltb_spec (diffLastWriteNextOutput rb) BUFFER_LENGTH_SAMPLES).
  - rewrite bool_decide_eq_false_2 by apply is_Some_None.
    by rewrite bool_decide_eq_false_2 by lia.
  - rewrite bool_decide_eq_true_2 by (by eexists).
    by rewrite bool_decide_eq_true_2 by lia.
Qed.

(** A buffer that is playing gives its pending frames one per cycle, oldest
    first, and is left playing with the read cursor on the write cursor. *)
Lemma mixSourceTimes_pending : ∀ k rb,
  ringOK rb → is_Some (endOfLastWrite rb) → started rb = true →
  length (pending rb) = k →
  ∃ rb',
    mixSourceTimes k rb = (rb', Some <$> pending rb)
    ∧ ringOK rb' ∧ started rb' = true
    ∧ buffer rb' = buffer rb ∧ endOfLastWrite rb' = endOfLastWrite rb
    ∧ diffLastWriteNextOutput rb' = 0.
Proof.
  induction k as [|k IH]; intros rb Hr Hw Hs Hlen.
  - exists rb. apply nil_length_inv in Hlen as Hnil. rewrite Hnil. split_and!; try done.
    rewrite length_pending in Hlen. pose proof (diff_onFrame rb Hr) as Hm.
    pose proof (diff_range rb) as Hd. revert Hlen Hm Hd. constants.
    Z.div_mod_to_equations. lia.
  - assert (contributes rb = true) as Hc.
    { rewrite contributes_started by done. apply bool_decide_eq_true_2.
      rewrite length_pending in Hlen. pose proof (diff_range rb) as Hd.
      revert Hlen Hd. constants. Z.div_mod_to_equations. lia. }
    pose proof (pending_mixSource rb Hr Hc) as Hp.
    pose proof (ringOK_mixSource rb Hr) as Hr1.
    pose proof (mixSource_contributes rb Hc) as Hm.
    destruct (IH (mixSource rb).1) as (rb' & Hrun & Hr' & Hs' & Hb' & Hw' & Hd'); try done.
    + by rewrite Hm.
    + by rewrite Hm.
    + rewrite Hp in Hlen. cbn in Hlen. lia.
    + exists rb'. cbn [mixSourceTimes]. rewrite Hm in *. cbn [fst] in *.
      rewrite Hrun, Hp. split_and!; done.
Qed.

(** A buffer with nothing pending gives nothing, and stops playing at the
    first cycle. *)
Lemma mixSourceTimes_empty : ∀ n rb,
  is_Some (endOfLastWrite rb) → diffLastWriteNextOutput rb = 0 →
  ∃ rb',
    mixSourceTimes n rb = (rb', replicate n None)
    ∧ started rb' = started rb && bool_decide (n = 0%nat)
    ∧ buffer rb' = buffer rb ∧ endOfLastWrite rb' = endOfLastWrite rb
    ∧ nextOutput rb' = nextOutput rb.
Proof.
  induction n as [|n IH]; intros rb Hw Hd.
  - exists rb. split_and!; try done. by rewrite andb_true_r.
  - assert (∃ rb1, mixSource rb = (rb1, None) ∧ started rb1 = false
                   ∧ buffer rb1 = buffer rb ∧ endOfLastWrite rb1 = endOfLastWrite rb
                   ∧ nextOutput rb1 = nextOutput rb) as (rb1 & Hm & Hs1 & Hb1 & Hw1 & Hn1).
    { destruct (started rb) eqn:Hs.
      - exists (set_started false rb). split; [|done].
        apply mixSource_starved; try done. rewrite Hd. by constants.
      - exists rb. split; [|done].
        apply (mixSource_buffering rb Hs). rewrite Hd. by constants. }
    destruct (IH rb1) as (rb' & Hrun & Hs' & Hb' & Hw' & Hn').
    + by rewrite Hw1.
    + unfold diffLastWriteNextOutput in *. by rewrite Hw1, Hn1.
    + exists rb'. cbn [mixSourceTimes replicate]. rewrite Hm, Hrun.
      split_and!; try congruence.
      rewrite Hs', Hs1. cbn [andb].
      rewrite (bool_decide_eq_false_2 (S n = 0%nat)) by lia. by rewrite andb_false_r.
Qed.

Lemma mixSourceTimes_app : ∀ n m rb,
  mixSourceTimes (n + m) rb
  = let '(rb', outs) := mixSourceTimes n rb in
    let '(rb'', outs') := mixSourceTimes m rb' in
    (rb'', outs ++ outs').
Proof.
  induction n as [|n IH]; intros m rb; cbn [mixSourceTimes Nat.add].
  - by destruct (mixSourceTimes m rb).
  - destruct (mixSource rb) as [rb1 out]. rewrite IH.
    destruct (mixSourceTimes n rb1) as [rb2 outs].
    by destruct (mixSourceTimes m rb2).
Qed.

(** X15. With no further admission, a buffer that the mixer has started on
    plays its whole backlog: it gives one pending frame per cycle, oldest
    first, until none is left; at the next cycle it falls back to buffering
    and from then on gives nothing.  The stored samples and the write cursor
    are as before, and the read cursor has caught up with the write cursor. *)
Theorem backlog_plays_in_order rb n :
  ringOK rb → contributes rb = true →
  ∃ rb',
    mixSourceTimes (length (pending rb) + n) rb
    = (rb', (Some <$> pending rb) ++ replicate n None)
    ∧ pending rb ≠ []
    ∧ started rb' = bool_decide (n = 0%nat)
    ∧ buffer rb' = buffer rb
    ∧ endOfLastWrite rb' = endOfLastWrite rb
    ∧ endOfLastWrite rb' = Some (nextOutput rb')
    ∧ pending rb' = [].
Proof.
  intros Hr Hc.
  pose proof (pending_mixSource rb Hr Hc) as Hp.
  pose proof (mixSource_contributes rb Hc) as Hm.
  pose proof (ringOK_mixSource rb Hr) as Hr1.
  assert (is_Some (endOfLastWrite rb)) as Hw.
  { revert Hc. unfold contributes, mixSource. destruct (endOfLastWrite rb); [by eexists|].
    by rewrite bool_decide_eq_false_2 by apply is_Some_None. }
  destruct (mixSourceTimes_pending (length (pending (mixSource rb).1)) (mixSource rb).1)
    as (rb1 & Hrun1 & Hrok1 & Hs1 & Hb1 & Hw1 & Hd1); try done.
  { by rewrite Hm. } { by rewrite Hm. }
  destruct (mixSourceTimes_empty n rb1) as (rb' & Hrun' & Hs' & Hb' & Hw' & Hn'); try done.
  { rewrite Hw1, Hm. done. }
  assert (buffer rb1 = buffer rb ∧ endOfLastWrite rb1 = endOfLastWrite rb) as [Hb1' Hw1'].
  { rewrite Hb1, Hw1, Hm. done. }
  assert (endOfLastWrite rb' = Some (nextOutput rb')) as Hcur.
  { rewrite Hw', Hn'. destruct Hrok1 as (_ & [Hrr _] & Hwr).
    unfold diffLastWriteNextOutput in Hd1. destruct Hw as [w Ew].
    rewrite Hw1', Ew in *. destruct Hwr as [Hwr _]. f_equal.
    revert Hd1 Hrr Hwr. constants. Z.div_mod_to_equations. lia. }
  exists rb'. rewrite mixSourceTimes_app. rewrite Hp at 1. cbn [length mixSourceTimes].
  destruct (mixSource rb) as [rbm out] eqn:Em. cbn [fst] in *.
  rewrite Hrun1, Hrun'. injection Hm as -> ->.
  split_and!; try done.
  - by rewrite Hp.
  - by rewrite Hp.
  - by rewrite Hs', Hs1.
  - by rewrite Hb'.
  - by rewrite Hw'.
  - apply nil_length_inv. rewrite length_pending. unfold diffLastWriteNextOutput.
    rewrite Hcur. rewrite Z.sub_diag, Z.add_0_l, Z.mod_same by (by constants).
    by constants.
Qed.

Lemma backlog_plays_in_order_witness :
  length (pending onePeerBuffer) = 3%nat
  ∧ ∃ rb',
      mixSourceTimes (length (pending onePeerBuffer) + 2) onePeerBuffer
      = (rb', (Some <$> pending onePeerBuffer) ++ replicate 2 None)
      ∧ pending onePeerBuffer ≠ []
      ∧ started rb' = bool_decide (2 = 0)%nat
      ∧ buffer rb' = buffer onePeerBuffer
      ∧ endOfLastWrite rb' = endOfLastWrite onePeerBuffer
      ∧ endOfLastWrite rb' = Some (nextOutput rb')
      ∧ pending rb' = [].
Proof.
  split; [vm_compute; reflexivity|].
  apply (backlog_plays_in_order onePeerBuffer 2).
  - apply (bool_decide_unpack _). vm_compute. exact I.
  - vm_compute. reflexivity.
Defined.

(** ** Clock readings: liveness, sleeps and the heartbeat *)

Lemma usecTimestamp_between clock1 clock2 :
  (usecTimestamp clock2 0 - usecTimestamp clock1 0 == inject_Z (usecsBetween clock1 clock2))%Q.
Proof.
  unfold usecTimestamp, usecsBetween, Qeq. cbn. lia.
Qed.

Lemma diffclock_between clock1 clock2 :
  (diffclock clock1 clock2 * (1000 # 1) == inject_Z (usecsBetween clock1 clock2))%Q.
Proof.
  unfold diffclock, usecsBetween, Qeq. cbn. lia.
Qed.

Lemma live_usecs sendTime ag :
  live sendTime ag = bool_decide (usecsBetween (time ag) sendTime ≤ 1000000).
Proof.
  unfold live. pose proof (diffclock_between (time ag) sendTime) as H.
  destruct (Qle_bool _ _) eqn:E.
  - symmetry. apply bool_decide_eq_true_2. apply Qle_bool_iff in E.
    assert (inject_Z (usecsBetween (time ag) sendTime) <= inject_Z 1000000)%Q as Hle.
    { rewrite <- H. change (inject_Z 1000000) with (inject_Z LOGOFF_CHECK_INTERVAL * (1000 # 1))%Q.
      apply Qmult_le_compat_r; [done|]. by compute. }
    by rewrite Zle_Qle.
  - symmetry. apply bool_decide_eq_false_2. intros Hle.
    assert (Qle_bool (diffclock (time ag) sendTime) (inject_Z LOGOFF_CHECK_INTERVAL) = true)
      as E'; [|congruence].
    apply Qle_bool_iff. rewrite Zle_Qle in Hle. rewrite <- H in Hle.
    change (inject_Z 1000000) with (inject_Z LOGOFF_CHECK_INTERVAL * (1000 # 1))%Q in Hle.
    apply Qmult_le_r in Hle; [done|]. by compute.
Qed.

Lemma heartbeatPause_usecs lastSend now :
  heartbeatPause lastSend now
  = if bool_decide (usecsBetween lastSend now < 1000000)
    then HeartbeatUsleep (1000000 - usecsBetween lastSend now)
    else NoSleepRequired.
Proof.
  unfold heartbeatPause.
  assert (((1000000 # 1) - (usecTimestamp now 0 - usecTimestamp lastSend 0)
           == inject_Z (1000000 - usecsBetween lastSend now))%Q) as H.
  { unfold usecTimestamp, usecsBetween, Qeq. cbn. lia. }
  destruct (Qle_bool _ _) eqn:E.
  - apply Qle_bool_iff in E. rewrite H in E. change 0%Q with (inject_Z 0) in E.
    rewrite <- Zle_Qle in E. by rewrite bool_decide_eq_false_2 by lia.
  - rewrite bool_decide_eq_true_2.
    + f_equal. rewrite H. apply Qfloor_Z.
    + destruct (Z.lt_ge_cases (usecsBetween lastSend now) 1000000) as [|Hge]; [done|].
      assert (Qle_bool ((1000000 # 1) - (usecTimestamp now 0 - usecTimestamp lastSend 0)) 0
              = true) as E'; [|congruence].
      apply Qle_bool_iff. rewrite H. change 0%Q with (inject_Z 0). rewrite <- Zle_Qle. lia.
Qed.

Lemma length_reportAliveToDS domainIP clock :
  length (reportAliveToDS domainIP clock) = length clock.
Proof. induction clock as [|[??] ? IH]; cbn; congruence. Qed.

(** X16. A peer is sent a mix for one second after its last packet.  After
    an admission at time [now], the cycle that reads the clock at [sendTime]
    sends a packet to the slot of that peer exactly when at most 1 000 000
    microseconds lie between the two readings (the bound included), and that
    packet is addressed to the sender's address and port. *)
Theorem peer_is_sent_for_one_second now addr prt audioData sendTime s s1 v s2 masterMix sent :
  tablesOK s →
  addAgent now addr prt audioData s = Some (s1, v) →
  mixCycle sendTime s1 = Some (s2, masterMix, sent) →
  ∃ i,
    (i < numAgents s1)%nat
    ∧ (time <$> agents s1 !! i) = Some now
    ∧ (i ∈ slot <$> sent ↔ usecsBetween now sendTime ≤ 1000000)
    ∧ ∀ q, q ∈ sent → slot q = i → toAddress q = Some addr ∧ toPort q = prt.
Proof.
  intros Hok Hadd Hrun.
  pose proof (tablesOK_addAgent _ _ _ _ _ _ _ Hok Hadd) as Hok1.
  pose proof Hadd as (i & ag & rb & Ea & Eb & Hcase & Es1 & _)%addAgent_inv.
  set (ag1 := refreshed now addr prt (bool_decide (i = numAgents s) || negb (active ag)) ag)
    in *.
  assert (agents s1 !! i = Some ag1) as Ea1.
  { subst s1. cbn. apply list_lookup_insert_eq. by eapply lookup_lt_Some. }
  assert (time ag1 = now ∧ address ag1 = Some addr ∧ port ag1 = prt) as (Ht & Had & Hpo).
  { subst ag1. unfold refreshed.
    destruct Hcase as [[-> _]|(_ & _ & [Had Hpo] & _)].
    - by rewrite bool_decide_eq_true_2.
    - by destruct (bool_decide (i = numAgents s) || negb (active ag)). }
  assert (i < numAgents s1)%nat as Hi.
  { subst s1. cbn. destruct Hcase as [[-> _]|(Hi & _)]; case_bool_decide; lia. }
  pose proof (mixCycle_sent _ _ _ _ _ Hok1 Hrun) as Hsent.
  exists i. split_and!; try done.
  - by rewrite Ea1, <- Ht.
  - rewrite list_elem_of_fmap. split.
    + intros (q & Hq & (a & ag' & _ & Ea' & Hl & ->)%Hsent). cbn in Hq. subst a.
      rewrite Ea1 in Ea'. injection Ea' as <-. rewrite live_usecs, Ht in Hl.
      by apply bool_decide_eq_true in Hl.
    + intros Hle. eexists. split; [|apply Hsent; exists i, ag1; split_and!; try done].
      * done.
      * rewrite live_usecs, Ht. by apply bool_decide_eq_true_2.
  - intros q (a & ag' & _ & Ea' & _ & ->)%Hsent Hq. cbn in Hq. subst a.
    rewrite Ea1 in Ea'. injection Ea' as <-. done.
Qed.

Lemma peer_is_sent_for_one_second_witness :
  usecsBetween (mkTimeval 101 0) (mkTimeval 102 0) = 1000000
  ∧ ∃ s1 v s2 masterMix sent i,
      addAgent (mkTimeval 101 0) "10.0.0.2" 6000 (tone 5) onePeer = Some (s1, v)
      ∧ mixCycle (mkTimeval 102 0) s1 = Some (s2, masterMix, sent)
      ∧ (i < numAgents s1)%nat
      ∧ (time <$> agents s1 !! i) = Some (mkTimeval 101 0)
      ∧ (i ∈ slot <$> sent ↔ usecsBetween (mkTimeval 101 0) (mkTimeval 102 0) ≤ 1000000)
      ∧ ∀ q, q ∈ sent → slot q = i → toAddress q = Some "10.0.0.2" ∧ toPort q = 6000.
Proof.
  split; [reflexivity|].
  destruct (addAgent (mkTimeval 101 0) "10.0.0.2" 6000 (tone 5) onePeer)
    as [[s1 v]|] eqn:Hadd; [|by vm_compute in Hadd].
  destruct (mixCycle (mkTimeval 102 0) s1) as [[[s2 masterMix] sent]|] eqn:Hrun.
  - assert (tablesOK onePeer) as Hok by (apply (bool_decide_unpack _); vm_compute; exact I).
    destruct (peer_is_sent_for_one_second _ _ _ _ _ _ _ _ _ _ _ Hok Hadd Hrun) as (i & H).
    by exists s1, v, s2, masterMix, sent, i.
  - assert (is_Some (addAgent (mkTimeval 101 0) "10.0.0.2" 6000 (tone 5) onePeer
                     ≫= λ x, mixCycle (mkTimeval 102 0) x.1)) as [y Hy]
      by (vm_compute; eexists; reflexivity).
    rewrite Hadd in Hy. cbn in Hy. rewrite Hrun in Hy. discriminate.
Defined.



(** X18. Every round of the heartbeat thread sends the same 28-byte text to
    the domain server's address on port 40102, and then sleeps what is left
    of one second counted from the start of that round: the time the send
    took and the sleep add up to exactly 1 000 000 microseconds.  A round
    whose send took a second or more is followed by no sleep. *)
Theorem heartbeat_every_second domainIP clock (k : nat) lastSend now :
  clock !! k = Some (lastSend, now) →
  length (reportAliveToDS domainIP clock) = length clock
  ∧ ∃ pause,
      reportAliveToDS domainIP clock !! k
      = Some (mkHeartbeat domainIP 40102 "M 0.000000,0.000000,0.000000" 28, pause)
      ∧ match pause with
        | HeartbeatUsleep usecs =>
            0 < usecs ∧ usecsBetween lastSend now + usecs = 1000000
        | NoSleepRequired => 1000000 ≤ usecsBetween lastSend now
        end.
Proof.
  intros E. split; [apply length_reportAliveToDS|]. revert k E.
  induction clock as [|[lastSend' now'] clock IH]; intros k E; [done|].
  destruct k as [|k].
  - injection E as -> ->. eexists. split; [reflexivity|].
    rewrite heartbeatPause_usecs. case_bool_decide; lia.
  - destruct (IH k E) as (pause & Hk & Hp). by exists pause.
Qed.

Lemma heartbeat_every_second_witness :
  reportAliveToDS "192.0.2.7" heartbeatClock
  = [ (mkHeartbeat "192.0.2.7" 40102 "M 0.000000,0.000000,0.000000" 28, HeartbeatUsleep 999750);
      (mkHeartbeat "192.0.2.7" 40102 "M 0.000000,0.000000,0.000000" 28, NoSleepRequired);
      (mkHeartbeat "192.0.2.7" 40102 "M 0.000000,0.000000,0.000000" 28, NoSleepRequired) ]
  ∧ length (reportAliveToDS "192.0.2.7" heartbeatClock) = length heartbeatClock
  ∧ ∃ pause,
      reportAliveToDS "192.0.2.7" heartbeatClock !! 0%nat
      = Some (mkHeartbeat "192.0.2.7" 40102 "M 0.000000,0.000000,0.000000" 28, pause)
      ∧ match pause with
        | HeartbeatUsleep usecs =>
            0 < usecs
            ∧ usecsBetween (mkTimeval 100 999900) (mkTimeval 101 150) + usecs = 1000000
        | NoSleepRequired =>
            1000000 ≤ usecsBetween (mkTimeval 100 999900) (mkTimeval 101 150)
        end.
Proof.
  split; [vm_compute; reflexivity|].
  apply (heartbeat_every_second "192.0.2.7" heartbeatClock 0 (mkTimeval 100 999900)
           (mkTimeval 101 150)).
  reflexivity.
Defined.

(** ** The jitter buffer after an underrun, and the bound of the table *)

(** An admission on frame-aligned cursors leaves the reader's side of the
    buffer alone. *)
Lemma admitFrame_reader audioData rb :
  ringOK rb →
  nextOutput (admitFrame audioData rb) = nextOutput rb
  ∧ started (admitFrame audioData rb) = started rb.
Proof.
  intros Hr. unfold admitFrame, writeFrame.
  destruct (endOfLastWrite rb) as [w|] eqn:Ew.
  - rewrite prepareWrite_onFrame by (done || by eexists). by rewrite Ew.
  - unfold prepareWrite. rewrite Ew. done.
Qed.

(** The backlog of a buffer with frame-aligned cursors, from the number of
    its pending frames. *)
Lemma diff_pending rb :
  ringOK rb →
  diffLastWriteNextOutput rb = Z.of_nat (length (pending rb)) * BUFFER_LENGTH_SAMPLES.
Proof.
  intros Hr. rewrite length_pending. pose proof (diff_onFrame rb Hr) as Hm.
  pose proof (diff_range rb) as Hd. revert Hm Hd. constants.
  Z.div_mod_to_equations. lia.
Qed.

Lemma length_identities s :
  tablesOK s → length (identities s) = numAgents s.
Proof.
  intros (Hla & _ & Hn & _). unfold identities.
  rewrite length_fmap, length_take_le; [done|]. destruct MAX_values as [E1 E2]. lia.
Qed.

Lemma length_firstSeen seen id : (length seen ≤ length (firstSeen seen id))%nat.
Proof. unfold firstSeen. case_decide; [done|]. rewrite length_app. lia. Qed.

Lemma length_foldl_firstSeen ids : ∀ seen,
  (length seen ≤ length (foldl firstSeen seen ids))%nat.
Proof.
  induction ids as [|id ids IH]; intros seen; [done|]. cbn.
  etrans; [apply (length_firstSeen seen id)|apply IH].
Qed.

(** A run returns exactly when the table never has to hold more than
    [MAX_SOURCE_BUFFERS] identities. *)
Lemma run_defined events : ∀ s,
  tablesOK s →
  is_Some (run events s)
  ↔ (length (foldl firstSeen (identities s) (senders events)) ≤ MAX_SOURCE_BUFFERS)%nat.
Proof.
  induction events as [|ev events IH]; intros s Hok.
  - cbn. rewrite length_identities by done. destruct Hok as (_ & _ & Hn & _).
    split; [done|by eexists].
  - destruct ev as [d| |sendTime]; cbn [run senders omap list_omap foldl].
    + fold (senders events).
      destruct (addAgent (arrival d) (senderAddress d) (senderPort d) (packetData d) s)
        as [[s1 v]|] eqn:Hadd; cbn [mbind option_bind].
      * pose proof (tablesOK_addAgent _ _ _ _ _ _ _ Hok Hadd) as Hok1.
        rewrite <- (identities_addAgent _ _ _ _ _ _ _ Hadd), <- (IH s1 Hok1).
        destruct (run events s1) as [[s2 added]|]; cbn; split; intros [x Hx]; try done;
          by eexists.
      * split; [by intros [x Hx]|]. intros Hlen. exfalso.
        assert (¬ ((numAgents s < MAX_SOURCE_BUFFERS)%nat
                   ∨ known s (senderAddress d) (senderPort d))) as Hno.
        { intros Hroom.
          destruct (addAgent_total (arrival d) (senderAddress d) (senderPort d)
                      (packetData d) s Hok Hroom) as [x Hx]. congruence. }
        pose proof (length_foldl_firstSeen (senders events)
                      (firstSeen (identities s) (Some (senderAddress d), senderPort d))) as Hmono.
        assert (firstSeen (identities s) (Some (senderAddress d), senderPort d)
                = identities s ++ [(Some (senderAddress d), senderPort d)]) as Hfs.
        { unfold firstSeen. apply decide_False. rewrite <- known_identities. tauto. }
        assert (length (firstSeen (identities s) (Some (senderAddress d), senderPort d))
                = S (numAgents s)) as Hlen1.
        { rewrite Hfs, length_app, length_identities by done. cbn. lia. }
        rewrite Hlen1 in Hmono.
        destruct (decide (numAgents s < MAX_SOURCE_BUFFERS)%nat); [tauto|]. lia.
    + fold (senders events). by apply IH.
    + fold (senders events).
      destruct (mixCycle_run sendTime s Hok) as (s1 & mm & sent & Hmix & _).
      rewrite Hmix. cbn [mbind option_bind].
      rewrite <- (identities_mixCycle _ _ _ _ _ Hok Hmix).
      apply IH. by eapply tablesOK_mixCycle.
Qed.

(** X19. After an underrun, or on a buffer never played, one frame is not
    enough to be heard: with nothing pending and playback stopped, the cycle
    after one admission holds the buffer back and changes nothing, and the
    cycle after a second admission starts playback with the first of the two
    frames and leaves the second pending. *)
Theorem playback_resumes_after_two_frames rb frame1 frame2 :
  ringOK rb → cursorsInside rb → started rb = false →
  diffLastWriteNextOutput rb = 0 →
  length frame1 = FRAME → length frame2 = FRAME →
  let rb1 := admitFrame frame1 rb in
  let rb2 := admitFrame frame2 rb1 in
  mixSource rb1 = (rb1, None)
  ∧ (mixSource rb2).2 = Some frame1
  ∧ started (mixSource rb2).1 = true
  ∧ pending (mixSource rb2).1 = [frame2].
Proof.
  intros Hr Hin Hs Hd Hf1 Hf2 rb1 rb2.
  assert (pending rb = []) as Hp0.
  { apply nil_length_inv. rewrite length_pending, Hd. by constants. }
  pose proof (ringOK_admitFrame frame1 rb Hf1 Hr) as Hr1.
  pose proof (cursorsInside_admitFrame frame1 rb Hf1 Hr) as Hin1.
  pose proof (ringOK_admitFrame frame2 rb1 Hf2 Hr1) as Hr2.
  assert (pending rb1 = [frame1]) as Hp1.
  { unfold rb1. rewrite pending_admitFrame, Hp0; try done. rewrite Hd. constants. lia. }
  assert (diffLastWriteNextOutput rb1 = BUFFER_LENGTH_SAMPLES) as Hd1.
  { rewrite diff_pending, Hp1 by done. cbn [length]. lia. }
  assert (pending rb2 = [frame1; frame2]) as Hp2.
  { unfold rb2. rewrite pending_admitFrame, Hp1; try done. rewrite Hd1. constants. lia. }
  assert (diffLastWriteNextOutput rb2 = 2 * BUFFER_LENGTH_SAMPLES) as Hd2.
  { rewrite diff_pending, Hp2 by done. cbn [length]. lia. }
  destruct (admitFrame_reader frame1 rb Hr) as [_ Hs1]. fold rb1 in Hs1.
  destruct (admitFrame_reader frame2 rb1 Hr1) as [_ Hs2]. fold rb2 in Hs2.
  rewrite Hs in Hs1. rewrite Hs1 in Hs2.
  split.
  { apply (mixSource_buffering rb1 Hs1). rewrite Hd1. constants. lia. }
  assert (contributes rb2 = true) as Hc.
  { unfold contributes. apply bool_decide_eq_true_2.
    apply (mixSource_buffering rb2 Hs2). rewrite Hd2. constants. lia. }
  pose proof (pending_mixSource rb2 Hr2 Hc) as Hq. rewrite Hp2 in Hq.
  injection Hq as Hq1 Hq2.
  rewrite (mixSource_contributes rb2 Hc) in *. cbn [fst snd] in *.
  split_and!; by try congruence.
Qed.

Lemma playback_resumes_after_two_frames_witness :
  let rb1 := admitFrame (tone 1) (newAudioRingBuffer (10 * BUFFER_LENGTH_SAMPLES)) in
  let rb2 := admitFrame (tone 2) rb1 in
  mixSource rb1 = (rb1, None)
  ∧ (mixSource rb2).2 = Some (tone 1)
  ∧ started (mixSource rb2).1 = true
  ∧ pending (mixSource rb2).1 = [tone 2].
Proof.
  apply (playback_resumes_after_two_frames
           (newAudioRingBuffer (10 * BUFFER_LENGTH_SAMPLES)) (tone 1) (tone 2)).
  - apply (bool_decide_unpack _). vm_compute. exact I.
  - apply (bool_decide_unpack _). vm_compute. exact I.
  - reflexivity.
  - reflexivity.
  - vm_compute. reflexivity.
  - vm_compute. reflexivity.
Defined.

